(** * zod-conf: binding schema fields to environment keys and resolving them

    A shallow embedding of the binding wrapper ([env], [wrap]), the
    annotation store ([_envMetadata]) and the resolver/merger
    ([resolveEnvValue], [loadValue], [safeLoad], [load]) of zod-conf,
    followed by the properties of the resolution engine.

    Layout: JavaScript values and numbers, schema objects and the store,
    env.ts, define.ts, then the lemmas. *)

From Stdlib Require Import ZArith NArith Ascii String List Bool.
From Stdlib Require Floats.SpecFloat.
From stdpp Require Import base option list strings gmap.

Local Open Scope string_scope.
Local Open Scope list_scope.
Local Set Warnings "-register-all".

(** ** JavaScript numbers

    A JS number is an IEEE 754 binary64 value.  They are represented by the
    Standard Library's [spec_float] at precision 53 and maximal exponent
    1024; every finite value built below goes through [binary_round_aux],
    which returns the canonical (mantissa, exponent) pair, so that Rocq's
    equality on finite non-zero numbers is numeric equality. *)
Module JSNum.

Abbreviation number := SpecFloat.spec_float.

Definition prec : Z := 53.
Definition emax : Z := 1024.

Definition NaN : number := SpecFloat.S754_nan.
Definition Infinity (neg : bool) : number := SpecFloat.S754_infinity neg.

(** The binary64 value nearest to [(-1)^neg * n / d] (ties to even). *)
Definition of_ratio (neg : bool) (n d : positive) : number :=
  let '(mz, ez, lz) :=
    SpecFloat.SFdiv_core_binary prec emax (Z.pos n) 0 (Z.pos d) 0 in
  SpecFloat.binary_round_aux prec emax neg mz ez lz.

(** The binary64 value nearest to [(-1)^neg * m * 10^e]. *)
Definition of_decimal (neg : bool) (m : N) (e : Z) : number :=
  match m with
  | N0 => SpecFloat.S754_zero neg
  | Npos p =>
      match e with
      | Z0 => of_ratio neg p 1
      | Z.pos k => of_ratio neg (p * 10 ^ k) 1
      | Z.neg k => of_ratio neg p (10 ^ k)
      end
  end.

Definition of_Z (z : Z) : number :=
  of_decimal (z <? 0)%Z (Z.abs_N z) 0.

(** [isNaN(x)] *)
Definition isNaN (x : number) : bool :=
  match x with SpecFloat.S754_nan => true | _ => false end.

(** [Number.isFinite(x)] *)
Definition isFinite (x : number) : bool :=
  match x with
  | SpecFloat.S754_zero _ | SpecFloat.S754_finite _ _ _ => true
  | _ => false
  end.

(** [Number.isInteger(x)]: finite and without a fractional part.  A finite
    value is [m * 2^e]; for [e < 0] it is integral exactly when the low
    [-e] bits of [m] are zero. *)
Definition isInteger (x : number) : bool :=
  match x with
  | SpecFloat.S754_zero _ => true
  | SpecFloat.S754_finite _ m e =>
      match e with
      | Z.neg k => (Z.pos m mod 2 ^ Z.pos k =? 0)%Z
      | _ => true
      end
  | _ => false
  end.

(** *** StringToNumber (ECMA-262, 7.1.4.1.1)

    A JS string is represented by the Rocq string of its UTF-8 bytes. *)

Definition code (c : ascii) : N := N_of_ascii c.

(** StrWhiteSpaceChar: WhiteSpace and LineTerminator code points, each as
    its UTF-8 byte sequence. *)
Definition StrWhiteSpaceChar : list (list N) :=
  [ [9]; [10]; [11]; [12]; [13]; [32];
    [194; 160];
    [225; 154; 128];
    [226; 128; 128]; [226; 128; 129]; [226; 128; 130]; [226; 128; 131];
    [226; 128; 132]; [226; 128; 133]; [226; 128; 134]; [226; 128; 135];
    [226; 128; 136]; [226; 128; 137]; [226; 128; 138];
    [226; 128; 168]; [226; 128; 169]; [226; 128; 175];
    [226; 129; 159];
    [227; 128; 128];
    [239; 187; 191] ]%N.

Fixpoint strip_prefix (w cs : list N) : option (list N) :=
  match w, cs with
  | [], _ => Some cs
  | a :: w', c :: cs' => if (a =? c)%N then strip_prefix w' cs' else None
  | _ :: _, [] => None
  end.

Fixpoint strip_any (table : list (list N)) (cs : list N) : option (list N) :=
  match table with
  | [] => None
  | w :: table' =>
      match strip_prefix w cs with
      | Some r => Some r
      | None => strip_any table' cs
      end
  end.

Fixpoint trim_start (fuel : nat) (table : list (list N)) (cs : list N) : list N :=
  match fuel with
  | O => cs
  | S fuel' =>
      match strip_any table cs with
      | Some r => trim_start fuel' table r
      | None => cs
      end
  end.

Definition trim (cs : list N) : list N :=
  let front := trim_start (length cs) StrWhiteSpaceChar cs in
  rev (trim_start (length front) (map (@rev N) StrWhiteSpaceChar) (rev front)).

Definition is_digit (c : N) : bool := ((48 <=? c) && (c <=? 57))%N.

Definition hex_value (c : N) : option N :=
  if is_digit c then Some (c - 48)%N
  else if ((97 <=? c) && (c <=? 102))%N then Some (c - 87)%N
  else if ((65 <=? c) && (c <=? 70))%N then Some (c - 55)%N
  else None.

Fixpoint span_digits (cs : list N) : list N * list N :=
  match cs with
  | c :: cs' =>
      if is_digit c
      then let '(ds, r) := span_digits cs' in (c :: ds, r)
      else ([], cs)
  | [] => ([], [])
  end.

Definition decimal_value (ds : list N) : N :=
  fold_left (fun acc c => acc * 10 + (c - 48))%N ds 0%N.

(** Digits of a NonDecimalIntegerLiteral in the given radix; [None] when
    a character is not a digit of that radix. *)
Fixpoint radix_value (radix : N) (acc : N) (cs : list N) : option N :=
  match cs with
  | [] => Some acc
  | c :: cs' =>
      match hex_value c with
      | Some d =>
          if (d <? radix)%N then radix_value radix (acc * radix + d)%N cs'
          else None
      | None => None
      end
  end.

(** ExponentPart_opt followed by the end of the literal. *)
Definition ExponentPart (cs : list N) : option Z :=
  match cs with
  | [] => Some 0%Z
  | c :: r =>
      if ((c =? 101) || (c =? 69))%N then
        let '(neg, r') :=
          match r with
          | 43%N :: r' => (false, r')
          | 45%N :: r' => (true, r')
          | _ => (false, r)
          end in
        match span_digits r' with
        | ((_ :: _) as ds, []) =>
            let v := Z.of_N (decimal_value ds) in
            Some (if neg then (- v)%Z else v)
        | _ => None
        end
      else None
  end.

Definition Infinity_literal : list N := map code (list_ascii_of_string "Infinity").

Definition StrUnsignedDecimalLiteral (neg : bool) (cs : list N) : number :=
  if decide (cs = Infinity_literal) then Infinity neg else
  let '(int, r1) := span_digits cs in
  let '(frac, r2) :=
    match r1 with
    | 46%N :: r => span_digits r
    | _ => ([], r1)
    end in
  match int ++ frac with
  | [] => NaN
  | ds =>
      match ExponentPart r2 with
      | Some e => of_decimal neg (decimal_value ds) (e - Z.of_nat (length frac))
      | None => NaN
      end
  end.

Definition NonDecimalIntegerLiteral (radix : N) (cs : list N) : number :=
  match cs with
  | [] => NaN
  | _ =>
      match radix_value radix 0 cs with
      | Some v => of_decimal false v 0
      | None => NaN
      end
  end.

Definition StringToNumber (s : string) : number :=
  match trim (map code (list_ascii_of_string s)) with
  | [] => SpecFloat.S754_zero false
  | 48%N :: (120%N | 88%N) :: r => NonDecimalIntegerLiteral 16 r
  | 48%N :: (111%N | 79%N) :: r => NonDecimalIntegerLiteral 8 r
  | 48%N :: (98%N | 66%N) :: r => NonDecimalIntegerLiteral 2 r
  | 43%N :: r => StrUnsignedDecimalLiteral false r
  | 45%N :: r => StrUnsignedDecimalLiteral true r
  | cs => StrUnsignedDecimalLiteral false cs
  end.

(** [Number(value)] for [value : string | undefined]. *)
Definition Number (value : option string) : number :=
  match value with
  | None => NaN
  | Some s => StringToNumber s
  end.

End JSNum.


(** ** JavaScript values

    The values a parsed YAML/JSON tree or a resolved field can hold.  A value
    with [typeof v === 'object'] that is not [null] is a [JSObject]: a plain
    object (its own properties as a finite map) or an array.  Members
    inherited from [Object.prototype] and [Array.prototype] are not part of
    the model. *)
Inductive JSValue :=
| JSUndefined
| JSNull
| JSBoolean (b : bool)
| JSNumber (n : JSNum.number)
| JSString (s : string)
| JSObject (o : Obj)
with Obj :=
| PlainObject (props : gmap string JSValue)
| ArrayObject (elems : list JSValue).

(** [{}] *)
Definition empty_object : Obj := PlainObject ∅.

Definition typeof (v : JSValue) : string :=
  match v with
  | JSUndefined => "undefined"
  | JSNull => "object"
  | JSBoolean _ => "boolean"
  | JSNumber _ => "number"
  | JSString _ => "string"
  | JSObject _ => "object"
  end.

(** ToBoolean *)
Definition truthy (v : JSValue) : bool :=
  match v with
  | JSUndefined | JSNull => false
  | JSBoolean b => b
  | JSNumber (SpecFloat.S754_zero _) | JSNumber SpecFloat.S754_nan => false
  | JSNumber _ => true
  | JSString s => negb (String.eqb s "")
  | JSObject _ => true
  end.

(** [v !== undefined] *)
Definition defined (v : JSValue) : bool :=
  match v with JSUndefined => false | _ => true end.

(** A [string | undefined] as a value. *)
Definition of_optional_string (value : option string) : JSValue :=
  match value with
  | Some s => JSString s
  | None => JSUndefined
  end.

(** An array index: the canonical decimal form of a natural number. *)
Definition array_index (key : string) : option nat :=
  let cs := map JSNum.code (list_ascii_of_string key) in
  match cs with
  | [] => None
  | [48%N] => Some O
  | 48%N :: _ => None
  | _ =>
      if forallb JSNum.is_digit cs
      then Some (N.to_nat (JSNum.decimal_value cs))
      else None
  end.

(** [o[key]] on own properties. *)
Definition js_get (o : Obj) (key : string) : JSValue :=
  match o with
  | PlainObject props => default JSUndefined (props !! key)
  | ArrayObject elems =>
      if String.eqb key "length"
      then JSNumber (JSNum.of_Z (Z.of_nat (length elems)))
      else match array_index key with
           | Some i => default JSUndefined (elems !! i)
           | None => JSUndefined
           end
  end.

(** ** Schema objects

    Zod's schema instances, reduced to what zod-conf looks at: the identity
    of the object (the key of the [WeakMap]), the two fields of [_def] the
    resolver follows ([innerType], [schema]), and for a [ZodObject] its
    [shape].  [ZodProxy] is the [Proxy] built by [wrap]; it has an identity
    of its own, forwards property reads to [target], and its handler closes
    over [envKey] and [envType]. *)
Inductive ZodType :=
| ZodSchema (id : positive) (innerType : option ZodType) (schema : option ZodType)
| ZodObject (id : positive) (shape : list (string * ZodType))
| ZodProxy (id : positive) (target : ZodType) (envKey envType : string).

Abbreviation ZodRawShape := (list (string * ZodType)).

(** Object identity. *)
Definition identity (s : ZodType) : positive :=
  match s with
  | ZodSchema id _ _ | ZodObject id _ | ZodProxy id _ _ _ => id
  end.

(** [s._def.innerType], read through proxies. *)
Fixpoint def_innerType (s : ZodType) : option ZodType :=
  match s with
  | ZodSchema _ innerType _ => innerType
  | ZodObject _ _ => None
  | ZodProxy _ target _ _ => def_innerType target
  end.

(** [s._def.schema], read through proxies. *)
Fixpoint def_schema (s : ZodType) : option ZodType :=
  match s with
  | ZodSchema _ _ schema => schema
  | ZodObject _ _ => None
  | ZodProxy _ target _ _ => def_schema target
  end.

(** [s instanceof ZodObject ? Some s.shape : None]; a proxy answers for its
    target. *)
Fixpoint instanceof_ZodObject (s : ZodType) : option ZodRawShape :=
  match s with
  | ZodSchema _ _ _ => None
  | ZodObject _ shape => Some shape
  | ZodProxy _ target _ _ => instanceof_ZodObject target
  end.

(** Induction on schemas, through [_def] and [shape]. *)

Section ZodType_nested_ind.

Variable P : ZodType -> Prop.
Hypothesis H_schema : forall id innerType schema,
  from_option P True innerType -> from_option P True schema ->
  P (ZodSchema id innerType schema).
Hypothesis H_object : forall id shape,
  Forall (fun field => P field.2) shape -> P (ZodObject id shape).
Hypothesis H_proxy : forall id target envKey envType,
  P target -> P (ZodProxy id target envKey envType).

Fixpoint ZodType_nested_ind (s : ZodType) : P s :=
  match s with
  | ZodSchema id innerType schema =>
      H_schema id innerType schema
        (match innerType return from_option P True innerType with
         | Some x => ZodType_nested_ind x
         | None => I
         end)
        (match schema return from_option P True schema with
         | Some x => ZodType_nested_ind x
         | None => I
         end)
  | ZodObject id shape =>
      H_object id shape
        ((fix fields (l : ZodRawShape) : Forall (fun field => P field.2) l :=
            match l with
            | [] => List.Forall_nil _
            | (k, x) :: l' =>
                List.Forall_cons (fun field => P field.2) (k, x) l'
                  (ZodType_nested_ind x) (fields l')
            end) shape)
  | ZodProxy id target envKey envType =>
      H_proxy id target envKey envType (ZodType_nested_ind target)
  end.

End ZodType_nested_ind.

(** ** env-metadata.ts *)

Module Metadata.
Record t := { key : string; type : string }.
End Metadata.

Record ZodIssue := { path : list string; message : string }.
Record ZodError := { issues : list ZodIssue }.

(** The module state: the allocator of object identities and the
    [WeakMap] [_envMetadata], keyed by identity. *)
Record Store := {
  next_id : positive;
  _envMetadata : gmap positive Metadata.t
}.

(** ** Computations: state passing, with exceptions *)

Inductive Completion (A : Type) :=
| Normal (a : A)
| Throw (e : ZodError).
Arguments Normal {A} a.
Arguments Throw {A} e.

Definition M (A : Type) : Type := Store -> Completion A * Store.

Definition ret {A} (a : A) : M A := fun σ => (Normal a, σ).

Definition bind {A B} (m : M A) (k : A -> M B) : M B :=
  fun σ =>
    match m σ with
    | (Normal a, σ') => k a σ'
    | (Throw e, σ') => (Throw e, σ')
    end.

Definition throw {A} (e : ZodError) : M A := fun σ => (Throw e, σ).

Notation "'let*' x ':=' m 'in' k" := (bind m (fun x => k))
  (at level 10, x name, m at level 100, k at level 200).

(** [new]: a fresh object identity. *)
Definition fresh : M positive :=
  fun σ => (Normal (next_id σ),
            {| next_id := Pos.succ (next_id σ); _envMetadata := _envMetadata σ |}).

(** [_envMetadata.get(o)] *)
Definition wm_get (o : ZodType) : M (option Metadata.t) :=
  fun σ => (Normal (_envMetadata σ !! identity o), σ).

(** [_envMetadata.set(o, md)] *)
Definition wm_set (o : ZodType) (md : Metadata.t) : M unit :=
  fun σ => (Normal tt,
            {| next_id := next_id σ;
               _envMetadata := <[identity o := md]> (_envMetadata σ) |}).

(** ** zod: the schema library

    Zod is not part of this repository.  What the resolver depends on is
    which fields of [_def] a schema produced by a combinator carries; that
    is the parameter [zod_def] (combinator, receiver) -> (innerType, schema).
    Every constructor and combinator returns a new object. *)

Inductive Combinator := default_ | optional | nullable | transform | refine.

(** [string()], [coerce.number()], [coerce.boolean()], [enum(values)]: a
    schema that wraps nothing. *)
Definition zod_base : M ZodType :=
  let* id := fresh in
  ret (ZodSchema id None None).

(** [object(shape)] *)
Definition zod_object (shape : ZodRawShape) : M ZodType :=
  let* id := fresh in
  ret (ZodObject id shape).

(** ** env.ts *)

(** [wrap(schema, envKey, envType)]: a new proxy around [schema], registered
    in [_envMetadata]. *)
Definition wrap (schema : ZodType) (envKey envType : string) : M ZodType :=
  let* id := fresh in
  let proxied := ZodProxy id schema envKey envType in
  let* _ := wm_set proxied {| Metadata.key := envKey; Metadata.type := envType |} in
  ret proxied.

Section Combinators.

Variable zod_def : Combinator -> ZodType -> option ZodType * option ZodType.

(** [this.default(..)], [this.optional()], ... on a schema that is not a
    proxy: zod's own method. *)
Definition zod_method (c : Combinator) (this : ZodType) : M ZodType :=
  let* id := fresh in
  ret (ZodSchema id (fst (zod_def c this)) (snd (zod_def c this))).

(** [s.c(...args)] for a combinator [c].  On a proxy the [get] trap returns a
    function that calls the original method on [target] and, since the
    result is a schema, wraps it with the handler's [envKey] and [envType]. *)
Fixpoint call (s : ZodType) (c : Combinator) : M ZodType :=
  match s with
  | ZodProxy _ target envKey envType =>
      let* result := call target c in
      wrap result envKey envType
  | _ => zod_method c s
  end.

(** [s.c1(..).c2(..)...] *)
Fixpoint chain (s : ZodType) (cs : list Combinator) : M ZodType :=
  match cs with
  | [] => ret s
  | c :: cs' =>
      let* s' := call s c in
      chain s' cs'
  end.

End Combinators.

(** The four constructors of the object returned by [env(key)].  The
    permitted values given to [enum] only matter to validation. *)
Inductive EnvMethod := string_ | number_ | boolean_ | enum_.

Definition envType_of (m : EnvMethod) : string :=
  match m with
  | string_ => "string"
  | number_ => "number"
  | boolean_ => "boolean"
  | enum_ => "enum"
  end.

(** [env(key).string()], [env(key).number()], [env(key).boolean()],
    [env(key).enum(values)]. *)
Definition env (key : string) (m : EnvMethod) : M ZodType :=
  let* base := zod_base in
  wrap base key (envType_of m).

(** ** define.ts *)

(** [Record<string, string | undefined>]: [env[K]] is a string or
    [undefined]; a key mapped to [undefined] reads like a missing key. *)
Abbreviation Env := (gmap string string).

(** A loader is [{ env }] or [{ values }]; by the declared types [values]
    is an object, so that ['values' in loader && loader.values] holds
    exactly for a [ValuesLoader] and ['env' in loader && loader.env] for an
    [EnvLoader]. *)
Inductive Loader :=
| EnvLoader (env : Env)
| ValuesLoader (values : Obj).

(** The [while] loop of [resolveEnvValue]: the metadata of the first
    registered object on the way down [_def.innerType] / [_def.schema]. *)
Fixpoint findMetadata (currentSchema : ZodType) : M (option Metadata.t) :=
  let* metadata := wm_get currentSchema in
  match metadata with
  | Some md => ret (Some md)
  | None =>
      (fix _def (o : ZodType) : M (option Metadata.t) :=
         match o with
         | ZodProxy _ target _ _ => _def target
         | ZodSchema _ (Some innerType) _ => findMetadata innerType
         | ZodSchema _ None (Some schema) => findMetadata schema
         | ZodSchema _ None None => ret None
         | ZodObject _ _ => ret None
         end) currentSchema
  end.

Definition resolveEnvValue (schema : ZodType) (env : Env) : M JSValue :=
  let* found := findMetadata schema in
  match found with
  | None => ret JSUndefined
  | Some md =>
      let envKey := Metadata.key md in
      let envType := Metadata.type md in
      if String.eqb envKey "" then ret JSUndefined else
      let value : option string := env !! envKey in
      if String.eqb envType "string" then
        ret (of_optional_string value)
      else if String.eqb envType "number" then
        ret (if truthy (of_optional_string value)
             then JSNumber (JSNum.Number value)
             else JSUndefined)
      else if String.eqb envType "boolean" then
        ret (if decide (value = Some "true") then JSBoolean true
             else if decide (value = Some "false") then JSBoolean false
             else JSUndefined)
      else if String.eqb envType "enum" then
        let numValue := JSNum.Number value in
        if truthy (of_optional_string value)
           && negb (JSNum.isNaN numValue) && JSNum.isInteger numValue
        then ret (JSNumber numValue)
        else ret (of_optional_string value)
      else ret JSUndefined
  end.

(** [loaders.map(...)] of the nested branch: a values loader is replaced by
    one over [loader.values[key]] when that is an object, over [{}]
    otherwise; any other loader is kept. *)
Definition subLoaders (key : string) (loaders : list Loader) : list Loader :=
  map (fun loader =>
         match loader with
         | ValuesLoader values =>
             let nested := js_get values key in
             ValuesLoader
               (if truthy nested && String.eqb (typeof nested) "object"
                then match nested with JSObject o => o | _ => empty_object end
                else empty_object)
         | _ => loader
         end) loaders.

(** One iteration of [for (const loader of loaders)] on a leaf field. *)
Definition loadLeaf (schema : ZodType) (key : string)
    (input : gmap string JSValue) (loader : Loader) : M (gmap string JSValue) :=
  match loader with
  | ValuesLoader values =>
      let value := js_get values key in
      if defined value then ret (<[key := value]> input) else ret input
  | EnvLoader env =>
      let* value := resolveEnvValue schema env in
      if defined value then ret (<[key := value]> input) else ret input
  end.

Fixpoint for_of {A B} (body : B -> A -> M B) (xs : list A) (acc : B) : M B :=
  match xs with
  | [] => ret acc
  | x :: xs' =>
      let* acc' := body acc x in
      for_of body xs' acc'
  end.

Section LoadValue.

(** [loadObject schema ls] is [Some (loadValue schema.shape ls)] when
    [schema instanceof ZodObject] and [None] otherwise. *)
Variable loadObject : ZodType -> list Loader -> option (M (gmap string JSValue)).

(** The body of [for (const key in shape)], from the fields still to visit
    and the [input] built so far. *)
Fixpoint loadFields (fields : ZodRawShape) (loaders : list Loader)
    (input : gmap string JSValue) : M (gmap string JSValue) :=
  match fields with
  | [] => ret input
  | (key, schema) :: rest =>
      match loadObject schema (subLoaders key loaders) with
      | Some nested =>
          let* sub := nested in
          loadFields rest loaders (<[key := JSObject (PlainObject sub)]> input)
      | None =>
          let* input' := for_of (loadLeaf schema key) loaders input in
          loadFields rest loaders input'
      end
  end.

End LoadValue.

Fixpoint loadObject (schema : ZodType) (loaders : list Loader)
    : option (M (gmap string JSValue)) :=
  match schema with
  | ZodObject _ shape => Some (loadFields loadObject shape loaders ∅)
  | ZodProxy _ target _ _ => loadObject target loaders
  | ZodSchema _ _ _ => None
  end.

Definition loadValue (shape : ZodRawShape) (loaders : list Loader)
    : M (gmap string JSValue) :=
  loadFields loadObject shape loaders ∅.

(** [SafeParseReturnType] *)
Inductive SafeParseResult :=
| Success (data : JSValue)
| Failure (error : ZodError).

Record ZodConfSchema := { shape : ZodRawShape; schema : ZodType }.

(** [define(shape)] *)
Definition define (shape : ZodRawShape) : M ZodConfSchema :=
  let* schema := zod_object shape in
  ret {| shape := shape; schema := schema |}.

Section Load.

(** [schema.safeParse(value)], the validation engine: it returns its verdict
    as a value. *)
Variable safeParse : ZodType -> JSValue -> SafeParseResult.

Definition safeLoad (this : ZodConfSchema) (loaders : list Loader) : M SafeParseResult :=
  let* value := loadValue (shape this) loaders in
  ret (safeParse (schema this) (JSObject (PlainObject value))).

Definition load (this : ZodConfSchema) (loaders : list Loader) : M JSValue :=
  let* result := safeLoad this loaders in
  match result with
  | Failure error => throw error
  | Success data => ret data
  end.

End Load.

(** ** Vocabulary of the properties *)

(** [m] started in [σ] completes normally with [a] and leaves the store as
    it was. *)
Definition Returns {A} (m : M A) (σ : Store) (a : A) : Prop :=
  m σ = (Normal a, σ).

(** [s] is a proxy whose handler carries [md] and whose identity is
    registered with [md]. *)
Definition Bound (σ : Store) (s : ZodType) (md : Metadata.t) : Prop :=
  exists id target,
    s = ZodProxy id target (Metadata.key md) (Metadata.type md)
    /\ _envMetadata σ !! id = Some md.

(** What one source produces for the leaf field [key] with schema [schema]:
    a values source reads [values[key]], an environment source resolves the
    binding. *)
Definition Yields (σ : Store) (schema : ZodType) (key : string)
    (loader : Loader) (v : JSValue) : Prop :=
  match loader with
  | ValuesLoader values => v = js_get values key
  | EnvLoader env => Returns (resolveEnvValue schema env) σ v
  end.

(** [if (value !== undefined) input[key] = value] *)
Definition assign (key : string) (input : gmap string JSValue) (value : JSValue)
    : gmap string JSValue :=
  if defined value then <[key := value]> input else input.

(** The last defined value of a list of produced values. *)
Definition last_defined (yields : list JSValue) : option JSValue :=
  last (filter (fun v => Is_true (defined v)) yields).

(** The store of a module in which nothing was bound yet. *)
Definition initial : Store := {| next_id := 1; _envMetadata := ∅ |}.

(** A [zod_def] in which [default], [optional] and [nullable] keep their
    receiver in [_def.innerType], and [transform] and [refine] in
    [_def.schema]. *)
Definition zod_effects (c : Combinator) (this : ZodType)
    : option ZodType * option ZodType :=
  match c with
  | default_ | optional | nullable => (Some this, None)
  | transform | refine => (None, Some this)
  end.

(** What a source holds under a field name when only values sources are
    read. *)
Definition values_only (key : string) (loader : Loader) : JSValue :=
  match loader with
  | ValuesLoader values => js_get values key
  | EnvLoader _ => JSUndefined
  end.

(** The enum policy in the words of the spec: the raw string is non-empty,
    parses fully to a finite numeric value, and that value is integral. *)
Definition number_like (v : string) : bool :=
  negb (String.eqb v "")
  && JSNum.isFinite (JSNum.StringToNumber v)
  && JSNum.isInteger (JSNum.StringToNumber v).

(** The narrowing of a source for a nested field in the words of the spec:
    a values source becomes the sub-tree at the field name, the empty tree
    when that is absent or not a container; an environment source is passed
    through. *)
Definition narrowed (key : string) (source : Loader) : Loader :=
  match source with
  | ValuesLoader values =>
      ValuesLoader
        match js_get values key with
        | JSObject sub => sub
        | _ => empty_object
        end
  | EnvLoader env => EnvLoader env
  end.

(** Descending from a shape through nested shapes, one field name per
    level. *)
Inductive descends : ZodRawShape -> list string -> ZodRawShape -> Prop :=
| descends_here shape : descends shape [] shape
| descends_into shape key schema sub path shape' :
    NoDup shape.*1 ->
    (key, schema) ∈ shape ->
    instanceof_ZodObject schema = Some sub ->
    descends sub path shape' ->
    descends shape (key :: path) shape'.

(** The object found in a tree along a path of field names. *)
Fixpoint tree_at (tree : gmap string JSValue) (path : list string)
    : option (gmap string JSValue) :=
  match path with
  | [] => Some tree
  | key :: path' =>
      match tree !! key with
      | Some (JSObject (PlainObject sub)) => tree_at sub path'
      | _ => None
      end
  end.

(** A source narrowed once per level of a path. *)
Definition narrowed_along (path : list string) (source : Loader) : Loader :=
  fold_left (fun narrower key => narrowed key narrower) path source.

(** *** Sample schemas, each with the store in which it was built *)

(** [env('PORT').number()] *)
Definition port_schema : ZodType :=
  ZodProxy 2 (ZodSchema 1 None None) "PORT" "number".
Definition port_store : Store :=
  {| next_id := 3;
     _envMetadata :=
       {[ 2%positive := {| Metadata.key := "PORT"; Metadata.type := "number" |} ]} |}.

(** [string()], a schema without binding *)
Definition plain_schema : ZodType := ZodSchema 1 None None.
Definition plain_store : Store := {| next_id := 2; _envMetadata := ∅ |}.

(** [env('STATUS').enum(Status)] *)
Definition status_schema : ZodType :=
  ZodProxy 2 (ZodSchema 1 None None) "STATUS" "enum".
Definition status_store : Store :=
  {| next_id := 3;
     _envMetadata :=
       {[ 2%positive := {| Metadata.key := "STATUS"; Metadata.type := "enum" |} ]} |}.

(** [env('').enum(Status)] *)
Definition unnamed_schema : ZodType :=
  ZodProxy 2 (ZodSchema 1 None None) "" "enum".
Definition unnamed_store : Store :=
  {| next_id := 3;
     _envMetadata :=
       {[ 2%positive := {| Metadata.key := ""; Metadata.type := "enum" |} ]} |}.

(** [{ server: object({ host: env('H').string(), port: env('P').number() }) }] *)
Definition host_schema : ZodType := ZodProxy 2 (ZodSchema 1 None None) "H" "string".
Definition server_port_schema : ZodType := ZodProxy 4 (ZodSchema 3 None None) "P" "number".
Definition server_schema : ZodType :=
  ZodObject 5 [("host", host_schema); ("port", server_port_schema)].
Definition server_shape : ZodRawShape := [("server", server_schema)].
Definition server_store : Store :=
  {| next_id := 6;
     _envMetadata :=
       <[ 4%positive := {| Metadata.key := "P"; Metadata.type := "number" |} ]>
         {[ 2%positive := {| Metadata.key := "H"; Metadata.type := "string" |} ]} |}.

(** [{ database: object({ pool: object({ max: env('DB_POOL_MAX').number() }) }) }] *)
Definition pool_max_schema : ZodType :=
  ZodProxy 2 (ZodSchema 1 None None) "DB_POOL_MAX" "number".
Definition pool_shape : ZodRawShape := [("max", pool_max_schema)].
Definition database_inner_shape : ZodRawShape := [("pool", ZodObject 3 pool_shape)].
Definition database_shape : ZodRawShape :=
  [("database", ZodObject 4 database_inner_shape)].
Definition database_store : Store :=
  {| next_id := 5;
     _envMetadata :=
       {[ 2%positive :=
            {| Metadata.key := "DB_POOL_MAX"; Metadata.type := "number" |} ]} |}.

(** ** define.ts, previous version: one environment, no values loaders

    The loop of [resolveEnvValue] and its [switch] are written inline there,
    and every leaf field is assigned, with [undefined] when nothing
    resolves. *)
Module Previous.

(** What the leaf branch assigns to [input[key]] once the loop has run. *)
Definition assigned (found : option Metadata.t) (env : Env) : JSValue :=
  match found with
  | None => JSUndefined
  | Some md =>
      let envKey := Metadata.key md in
      let envType := Metadata.type md in
      if String.eqb envKey "" then JSUndefined else
      let value : option string := env !! envKey in
      if String.eqb envType "string" then of_optional_string value
      else if String.eqb envType "number" then
        if truthy (of_optional_string value)
        then JSNumber (JSNum.Number value)
        else JSUndefined
      else if String.eqb envType "boolean" then
        if decide (value = Some "true") then JSBoolean true
        else if decide (value = Some "false") then JSBoolean false
        else JSUndefined
      else if String.eqb envType "enum" then
        let numValue := JSNum.Number value in
        if truthy (of_optional_string value)
           && negb (JSNum.isNaN numValue) && JSNum.isInteger numValue
        then JSNumber numValue
        else of_optional_string value
      else JSUndefined
  end.

Section LoadValue.

Variable loadObject : ZodType -> Env -> option (M (gmap string JSValue)).

Fixpoint loadFields (fields : ZodRawShape) (env : Env)
    (input : gmap string JSValue) : M (gmap string JSValue) :=
  match fields with
  | [] => ret input
  | (key, schema) :: rest =>
      match loadObject schema env with
      | Some nested =>
          let* sub := nested in
          loadFields rest env (<[key := JSObject (PlainObject sub)]> input)
      | None =>
          let* found := findMetadata schema in
          loadFields rest env (<[key := assigned found env]> input)
      end
  end.

End LoadValue.

Fixpoint loadObject (schema : ZodType) (env : Env)
    : option (M (gmap string JSValue)) :=
  match schema with
  | ZodObject _ shape => Some (loadFields loadObject shape env ∅)
  | ZodProxy _ target _ _ => loadObject target env
  | ZodSchema _ _ _ => None
  end.

Definition loadValue (shape : ZodRawShape) (env : Env) : M (gmap string JSValue) :=
  loadFields loadObject shape env ∅.

End Previous.

(** *** Vocabulary for the store *)

(** Every object of [s] has an identity accepted by [P]. *)
Fixpoint identities_satisfy (P : positive -> bool) (s : ZodType) : bool :=
  match s with
  | ZodSchema id innerType schema =>
      P id
      && match innerType with Some x => identities_satisfy P x | None => true end
      && match schema with Some x => identities_satisfy P x | None => true end
  | ZodObject id shape =>
      P id && forallb (fun field => identities_satisfy P field.2) shape
  | ZodProxy id target _ _ => P id && identities_satisfy P target
  end.

(** Every object of [s] has an identity below [n]: [s] was built before the
    allocator reached [n]. *)
Definition allocated (n : positive) (s : ZodType) : bool :=
  identities_satisfy (fun id => (id <? n)%positive) s.

(** [s] is a proxy straight around one of zod's own schemas, built and
    registered with [md] before the allocator reached its present value. *)
Definition Built (σ : Store) (s : ZodType) (md : Metadata.t) : Prop :=
  exists id id0 innerType schema,
    s = ZodProxy id (ZodSchema id0 innerType schema)
          (Metadata.key md) (Metadata.type md)
    /\ _envMetadata σ !! id = Some md
    /\ (id < next_id σ)%positive.

(** [σ'] comes after [σ]: the allocator did not go back, and every identity
    allocated in [σ] has in [σ'] the registration, or the absence of one,
    that it had in [σ]. *)
Definition grows (σ σ' : Store) : Prop :=
  (next_id σ <= next_id σ')%positive
  /\ forall id, (id < next_id σ)%positive ->
       _envMetadata σ' !! id = _envMetadata σ !! id.

(** ** Computations *)

Lemma Returns_ret {A} (a : A) σ : Returns (ret a) σ a.
Proof. reflexivity. Qed.

Lemma bind_run {A B} (m : M A) (k : A -> M B) σ a :
  Returns m σ a -> bind m k σ = k a σ.
Proof. unfold Returns, bind. intros ->. reflexivity. Qed.

Lemma Returns_bind {A B} (m : M A) (k : A -> M B) σ a b :
  Returns m σ a -> Returns (k a) σ b -> Returns (bind m k) σ b.
Proof. intros Hm Hk. unfold Returns. rewrite (bind_run _ _ _ _ Hm). exact Hk. Qed.

Lemma Returns_inj {A} (m : M A) σ a b :
  Returns m σ a -> Returns m σ b -> a = b.
Proof. unfold Returns. intros -> [=]. assumption. Qed.

Lemma wm_get_Returns o σ : Returns (wm_get o) σ (_envMetadata σ !! identity o).
Proof. reflexivity. Qed.

(** ** The annotation walk *)

Lemma findMetadata_unfold s σ :
  findMetadata s σ =
  match _envMetadata σ !! identity s with
  | Some md => (Normal (Some md), σ)
  | None =>
      match def_innerType s with
      | Some innerType => findMetadata innerType σ
      | None =>
          match def_schema s with
          | Some schema => findMetadata schema σ
          | None => (Normal None, σ)
          end
      end
  end.
Proof.
  assert (Hdef : forall o,
    (fix _def (o : ZodType) : M (option Metadata.t) :=
       match o with
       | ZodProxy _ target _ _ => _def target
       | ZodSchema _ (Some innerType) _ => findMetadata innerType
       | ZodSchema _ None (Some schema) => findMetadata schema
       | ZodSchema _ None None => ret None
       | ZodObject _ _ => ret None
       end) o σ =
    match def_innerType o with
    | Some innerType => findMetadata innerType σ
    | None =>
        match def_schema o with
        | Some schema => findMetadata schema σ
        | None => (Normal None, σ)
        end
    end).
  { induction o as [id [i|] [sc|] | id shape | id target IH k ty]; try reflexivity.
    exact IH. }
  destruct s as [id i sc | id shape | id target k ty]; cbn [findMetadata];
    rewrite (bind_run _ _ _ _ (wm_get_Returns _ σ));
    destruct (_envMetadata σ !! identity _) as [md|] eqn:Hmd;
    try reflexivity.
  - exact (Hdef (ZodSchema id i sc)).
  - exact (Hdef (ZodProxy id target k ty)).
Qed.

Lemma findMetadata_registered s σ md :
  _envMetadata σ !! identity s = Some md ->
  Returns (findMetadata s) σ (Some md).
Proof. intros H. unfold Returns. rewrite findMetadata_unfold, H. reflexivity. Qed.

Lemma findMetadata_total s σ : exists found, Returns (findMetadata s) σ found.
Proof.
  unfold Returns.
  assert (Hstep : forall o,
    (exists found,
       match def_innerType o with
       | Some innerType => findMetadata innerType σ
       | None =>
           match def_schema o with
           | Some schema => findMetadata schema σ
           | None => (Normal None, σ)
           end
       end = (Normal found, σ)) ->
    exists found, findMetadata o σ = (Normal found, σ)).
  { intros o Ho. rewrite findMetadata_unfold.
    destruct (_envMetadata σ !! identity o); eauto. }
  apply Hstep.
  induction s as [id i sc IHi IHsc | id shape _ | id target k ty IH]
    using ZodType_nested_ind; cbn [def_innerType def_schema]; eauto.
  destruct i as [i|]; [apply Hstep, IHi|].
  destruct sc as [sc|]; [apply Hstep, IHsc|]. eauto.
Qed.

(** ** The binding wrapper *)

Lemma wrap_run schema envKey envType σ :
  wrap schema envKey envType σ =
  (Normal (ZodProxy (next_id σ) schema envKey envType),
   {| next_id := Pos.succ (next_id σ);
      _envMetadata :=
        <[next_id σ := {| Metadata.key := envKey; Metadata.type := envType |}]>
          (_envMetadata σ) |}).
Proof. reflexivity. Qed.

Lemma wrap_Bound schema md σ :
  exists s σ',
    wrap schema (Metadata.key md) (Metadata.type md) σ = (Normal s, σ')
    /\ Bound σ' s md.
Proof.
  rewrite wrap_run. eexists _, _. split; [reflexivity|].
  exists (next_id σ), schema. split; [reflexivity|].
  cbn [_envMetadata]. rewrite lookup_insert_eq. by destruct md.
Qed.

Section Binding.

Variable zod_def : Combinator -> ZodType -> option ZodType * option ZodType.

(** A combinator call completes normally on every schema. *)
Lemma call_total s c σ :
  exists s' σ', call zod_def s c σ = (Normal s', σ').
Proof.
  revert σ. induction s as [id i sc | id shape | id target IH k ty]; intros σ;
    cbn [call]; try (eexists _, _; reflexivity).
  destruct (IH σ) as (r & σ1 & Hr). unfold bind at 1. rewrite Hr.
  rewrite wrap_run. eauto.
Qed.

(** Calling a combinator on a bound proxy gives a proxy bound to the same
    key and type. *)
Lemma call_Bound s c md σ :
  Bound σ s md ->
  exists s' σ', call zod_def s c σ = (Normal s', σ') /\ Bound σ' s' md.
Proof.
  intros (id & target & -> & _). cbn [call].
  destruct (call_total target c σ) as (r & σ1 & Hr).
  unfold bind at 1. rewrite Hr. apply wrap_Bound.
Qed.

Lemma chain_Bound cs : forall s md σ,
  Bound σ s md ->
  exists s' σ', chain zod_def s cs σ = (Normal s', σ') /\ Bound σ' s' md.
Proof.
  induction cs as [|c cs IH]; intros s md σ Hs; cbn [chain].
  - eexists _, _. split; [reflexivity | exact Hs].
  - destruct (call_Bound s c md σ Hs) as (s1 & σ1 & Hcall & Hs1).
    unfold bind at 1. rewrite Hcall. apply IH, Hs1.
Qed.

End Binding.

Lemma env_Bound key m σ :
  exists s σ',
    env key m σ = (Normal s, σ')
    /\ Bound σ' s {| Metadata.key := key; Metadata.type := envType_of m |}.
Proof.
  unfold env, zod_base. unfold bind at 1. cbn [fresh].
  unfold bind at 1. cbn [ret].
  apply (wrap_Bound _ {| Metadata.key := key; Metadata.type := envType_of m |}).
Qed.

Lemma Bound_findMetadata σ s md :
  Bound σ s md -> Returns (findMetadata s) σ (Some md).
Proof.
  intros (id & target & -> & Hid). by apply findMetadata_registered.
Qed.

(** C1. A schema made by [env(K)] with type tag [T], after any finite chain
    of [default], [optional], [nullable], [transform] and [refine] calls (in
    any order and number, whatever [_def] the library gives their results),
    is one on which the resolver's walk, started at the outermost schema,
    finds exactly the key [K] and the tag [T]. *)
Theorem annotation_survives_combinator_chain
    (zod_def : Combinator -> ZodType -> option ZodType * option ZodType)
    (K : string) (m : EnvMethod) (cs : list Combinator) (σ : Store) :
  exists s σ',
    (let* bound := env K m in chain zod_def bound cs) σ = (Normal s, σ')
    /\ Returns (findMetadata s) σ'
         (Some {| Metadata.key := K; Metadata.type := envType_of m |}).
Proof.
  destruct (env_Bound K m σ) as (s0 & σ0 & Henv & Hs0).
  destruct (chain_Bound zod_def cs s0 _ σ0 Hs0) as (s & σ' & Hchain & Hs).
  exists s, σ'. split.
  - unfold bind. rewrite Henv. exact Hchain.
  - apply Bound_findMetadata, Hs.
Qed.

(** The chain of the spec: default, optional, transform. *)
Example chain_default_optional_transform :
  exists s σ,
    (let* bound := env "PORT" number_ in
     chain zod_effects bound [default_; optional; transform]) initial
      = (Normal s, σ)
    /\ s = ZodProxy 8
             (ZodSchema 7 None
                (Some (ZodSchema 5
                         (Some (ZodSchema 3 (Some (ZodSchema 1 None None)) None))
                         None)))
             "PORT" "number"
    /\ Returns (findMetadata s) σ
         (Some {| Metadata.key := "PORT"; Metadata.type := "number" |}).
Proof. eexists _, _. repeat split. Qed.

(** ** Resolving one binding *)

Lemma resolveEnvValue_run schema env σ found :
  Returns (findMetadata schema) σ found ->
  resolveEnvValue schema env σ =
  match found with
  | None => (Normal JSUndefined, σ)
  | Some md =>
      let envKey := Metadata.key md in
      let envType := Metadata.type md in
      if String.eqb envKey "" then (Normal JSUndefined, σ) else
      let value : option string := env !! envKey in
      if String.eqb envType "string" then
        (Normal (of_optional_string value), σ)
      else if String.eqb envType "number" then
        (Normal (if truthy (of_optional_string value)
                 then JSNumber (JSNum.Number value)
                 else JSUndefined), σ)
      else if String.eqb envType "boolean" then
        (Normal (if decide (value = Some "true") then JSBoolean true
                 else if decide (value = Some "false") then JSBoolean false
                 else JSUndefined), σ)
      else if String.eqb envType "enum" then
        let numValue := JSNum.Number value in
        if truthy (of_optional_string value)
           && negb (JSNum.isNaN numValue) && JSNum.isInteger numValue
        then (Normal (JSNumber numValue), σ)
        else (Normal (of_optional_string value), σ)
      else (Normal JSUndefined, σ)
  end.
Proof.
  intros Hfound. unfold resolveEnvValue. rewrite (bind_run _ _ _ _ Hfound).
  destruct found as [md|]; [|reflexivity]. cbv zeta.
  repeat (match goal with |- context [if ?b then _ else _] =>
            destruct b; try reflexivity end).
Qed.

Lemma resolveEnvValue_total schema env σ :
  exists v, Returns (resolveEnvValue schema env) σ v.
Proof.
  destruct (findMetadata_total schema σ) as [found Hfound].
  unfold Returns. rewrite (resolveEnvValue_run _ _ _ _ Hfound).
  destruct found as [md|]; [|eauto]. cbv zeta.
  repeat (match goal with |- context [if ?b then _ else _] =>
            destruct b; eauto end).
Qed.

(** No annotation on the chain: the environment source resolves nothing. *)
Lemma resolveEnvValue_unbound schema env σ :
  Returns (findMetadata schema) σ None ->
  Returns (resolveEnvValue schema env) σ JSUndefined.
Proof. intros H. unfold Returns. by rewrite (resolveEnvValue_run _ _ _ _ H). Qed.

Lemma resolveEnvValue_number schema env σ K :
  Returns (findMetadata schema) σ
    (Some {| Metadata.key := K; Metadata.type := "number" |}) ->
  K <> "" ->
  Returns (resolveEnvValue schema env) σ
    (if truthy (of_optional_string (env !! K))
     then JSNumber (JSNum.Number (env !! K))
     else JSUndefined).
Proof.
  intros H HK. unfold Returns. rewrite (resolveEnvValue_run _ _ _ _ H).
  cbn [Metadata.key Metadata.type]. cbv zeta.
  apply String.eqb_neq in HK. rewrite HK. reflexivity.
Qed.

Lemma resolveEnvValue_enum schema env σ K :
  Returns (findMetadata schema) σ
    (Some {| Metadata.key := K; Metadata.type := "enum" |}) ->
  K <> "" ->
  Returns (resolveEnvValue schema env) σ
    (let numValue := JSNum.Number (env !! K) in
     if truthy (of_optional_string (env !! K))
        && negb (JSNum.isNaN numValue) && JSNum.isInteger numValue
     then JSNumber numValue
     else of_optional_string (env !! K)).
Proof.
  intros H HK. unfold Returns. rewrite (resolveEnvValue_run _ _ _ _ H).
  cbn [Metadata.key Metadata.type]. cbv zeta.
  apply String.eqb_neq in HK. rewrite HK. cbn [String.eqb Ascii.eqb Bool.eqb].
  by destruct (_ && _).
Qed.

(** With the empty key the guard [!envKey] answers as if nothing was found. *)
Lemma resolveEnvValue_empty_key schema env σ envType :
  Returns (findMetadata schema) σ
    (Some {| Metadata.key := ""; Metadata.type := envType |}) ->
  Returns (resolveEnvValue schema env) σ JSUndefined.
Proof. intros H. unfold Returns. by rewrite (resolveEnvValue_run _ _ _ _ H). Qed.

(** ** The loop over the loaders on a leaf field *)

Lemma Yields_total σ schema key loader :
  exists v, Yields σ schema key loader v.
Proof.
  destruct loader as [env|values]; cbn [Yields]; [|eauto].
  apply resolveEnvValue_total.
Qed.

Lemma Yields_inj σ schema key loader v w :
  Yields σ schema key loader v -> Yields σ schema key loader w -> v = w.
Proof.
  destruct loader as [env|values]; cbn [Yields].
  - apply Returns_inj.
  - congruence.
Qed.

Lemma Yields_all σ schema key loaders :
  exists yields, Forall2 (Yields σ schema key) loaders yields.
Proof.
  induction loaders as [|loader loaders [yields IH]]; [by exists []|].
  destruct (Yields_total σ schema key loader) as [v Hv].
  exists (v :: yields). by constructor.
Qed.

Lemma loadLeaf_Yields σ schema key input loader v :
  Yields σ schema key loader v ->
  Returns (loadLeaf schema key input loader) σ (assign key input v).
Proof.
  destruct loader as [env|values]; cbn [Yields loadLeaf]; unfold assign.
  - intros Hv. unfold Returns. rewrite (bind_run _ _ _ _ Hv). by destruct (defined v).
  - intros ->. by destruct (defined _).
Qed.

Lemma for_of_loadLeaf σ schema key loaders : forall yields input,
  Forall2 (Yields σ schema key) loaders yields ->
  Returns (for_of (loadLeaf schema key) loaders input) σ
    (fold_left (assign key) yields input).
Proof.
  induction loaders as [|loader loaders IH]; intros yields input Hy;
    inversion Hy as [|? v ? yields' Hv Hy']; subst; cbn [for_of fold_left].
  - apply Returns_ret.
  - eapply Returns_bind; [by apply loadLeaf_Yields|]. by apply IH.
Qed.

Lemma last_defined_cons v yields :
  last_defined (v :: yields) =
  match last_defined yields with
  | Some w => Some w
  | None => if defined v then Some v else None
  end.
Proof.
  unfold last_defined. rewrite filter_cons.
  destruct (decide (Is_true (defined v))) as [Hv|Hv].
  - rewrite last_cons. apply Is_true_true in Hv. by rewrite Hv.
  - apply Is_true_false in Hv. rewrite Hv. by destruct (last _).
Qed.

Lemma fold_assign_lookup key yields : forall input,
  fold_left (assign key) yields input !! key
  = from_option Some (input !! key) (last_defined yields).
Proof.
  induction yields as [|v yields IH]; intros input; [reflexivity|].
  cbn [fold_left]. rewrite IH, last_defined_cons.
  destruct (last_defined yields); [reflexivity|]. unfold assign.
  destruct (defined v); cbn; [apply lookup_insert_eq | reflexivity].
Qed.

Lemma fold_assign_lookup_ne key k yields : forall input,
  k <> key -> fold_left (assign key) yields input !! k = input !! k.
Proof.
  induction yields as [|v yields IH]; intros input Hk; [reflexivity|].
  cbn [fold_left]. rewrite IH by done. unfold assign.
  destruct (defined v); [by rewrite lookup_insert_ne | reflexivity].
Qed.

Lemma last_defined_none yields :
  Forall (fun v => v = JSUndefined) yields -> last_defined yields = None.
Proof.
  induction 1 as [|v yields -> _ IH]; [reflexivity|].
  by rewrite last_defined_cons, IH.
Qed.

Lemma last_defined_last before v after :
  defined v = true ->
  Forall (fun w => w = JSUndefined) after ->
  last_defined (before ++ v :: after) = Some v.
Proof.
  intros Hv Hafter. induction before as [|b before IH]; cbn [app].
  - by rewrite last_defined_cons, (last_defined_none _ Hafter), Hv.
  - by rewrite last_defined_cons, IH.
Qed.

(** ** The loop over the fields of a shape *)

Lemma loadObject_unfold schema loaders :
  loadObject schema loaders
  = (fun shape => loadValue shape loaders) <$> instanceof_ZodObject schema.
Proof.
  induction schema as [id i sc | id shape | id target IH k ty]; try reflexivity.
  exact IH.
Qed.

(** [loadFields] read as the source is written: the nested branch calls
    [loadValue] on [schema.shape] with the sub-loaders. *)
Lemma loadFields_cons key schema rest loaders input :
  loadFields loadObject ((key, schema) :: rest) loaders input =
  match instanceof_ZodObject schema with
  | Some shape =>
      let* sub := loadValue shape (subLoaders key loaders) in
      loadFields loadObject rest loaders (<[key := JSObject (PlainObject sub)]> input)
  | None =>
      let* input' := for_of (loadLeaf schema key) loaders input in
      loadFields loadObject rest loaders input'
  end.
Proof.
  cbn [loadFields]. rewrite loadObject_unfold.
  by destruct (instanceof_ZodObject schema).
Qed.

Lemma for_of_loadLeaf_total σ schema key loaders input :
  exists input', Returns (for_of (loadLeaf schema key) loaders input) σ input'.
Proof.
  destruct (Yields_all σ schema key loaders) as [yields Hy].
  eexists. by apply for_of_loadLeaf.
Qed.

(** Resolution of the fields of a shape completes normally and leaves the
    store unchanged, whatever the nesting. *)
Lemma loadFields_total σ fields : forall loaders input,
  exists tree, Returns (loadFields loadObject fields loaders input) σ tree.
Proof.
  enough (Hnested : forall schema shape,
    instanceof_ZodObject schema = Some shape ->
    forall loaders input,
      exists tree, Returns (loadFields loadObject shape loaders input) σ tree).
  { exact (Hnested (ZodObject 1 fields) fields eq_refl). }
  intros schema.
  induction schema as [id i sc _ _ | id shape IH | id target k ty IH]
    using ZodType_nested_ind; intros shape' Hshape; cbn in Hshape;
    [discriminate| |by apply IH].
  injection Hshape as <-.
  induction IH as [|[key schema] rest Hschema _ IHrest]; intros loaders input.
  - eexists. apply Returns_ret.
  - rewrite loadFields_cons. cbn [snd] in Hschema.
    destruct (instanceof_ZodObject schema) as [sub|] eqn:Hsub.
    + destruct (Hschema sub eq_refl (subLoaders key loaders) ∅) as [t Ht].
      destruct (IHrest loaders (<[key := JSObject (PlainObject t)]> input))
        as [tree Htree].
      exists tree. eapply Returns_bind; [exact Ht | exact Htree].
    + destruct (for_of_loadLeaf_total σ schema key loaders input) as [input' Hleaf].
      destruct (IHrest loaders input') as [tree Htree].
      exists tree. eapply Returns_bind; [exact Hleaf | exact Htree].
Qed.

Lemma loadValue_total σ shape loaders :
  exists tree, Returns (loadValue shape loaders) σ tree.
Proof. apply loadFields_total. Qed.

(** A field name that the remaining fields do not mention keeps what
    [input] holds for it. *)
Lemma loadFields_frame σ k fields : forall loaders input tree,
  k ∉ fields.*1 ->
  Returns (loadFields loadObject fields loaders input) σ tree ->
  tree !! k = input !! k.
Proof.
  induction fields as [|[key schema] rest IH]; intros loaders input tree Hk Htree.
  - unfold Returns in Htree. cbn in Htree. by injection Htree as <-.
  - cbn [fmap list_fmap fst] in Hk. apply not_elem_of_cons in Hk as [Hne Hk].
    unfold Returns in Htree. rewrite loadFields_cons in Htree.
    destruct (instanceof_ZodObject schema) as [sub|].
    + destruct (loadValue_total σ sub (subLoaders key loaders)) as [t Ht].
      rewrite (bind_run _ _ _ _ Ht) in Htree.
      rewrite (IH _ _ _ Hk Htree). by rewrite lookup_insert_ne.
    + destruct (Yields_all σ schema key loaders) as [yields Hy].
      rewrite (bind_run _ _ _ _ (for_of_loadLeaf _ _ _ _ _ input Hy)) in Htree.
      rewrite (IH _ _ _ Hk Htree). by apply fold_assign_lookup_ne.
Qed.

(** What the loop leaves under the name of a field of the shape: for a
    nested shape the object resolved from the sub-loaders, for a leaf the
    last defined value among what the loaders produce. *)
Lemma loadFields_lookup σ key schema fields : forall loaders input tree,
  NoDup fields.*1 ->
  (key, schema) ∈ fields ->
  Returns (loadFields loadObject fields loaders input) σ tree ->
  match instanceof_ZodObject schema with
  | Some shape =>
      exists sub,
        Returns (loadValue shape (subLoaders key loaders)) σ sub
        /\ tree !! key = Some (JSObject (PlainObject sub))
  | None =>
      exists yields,
        Forall2 (Yields σ schema key) loaders yields
        /\ tree !! key = from_option Some (input !! key) (last_defined yields)
  end.
Proof.
  induction fields as [|[key' schema'] rest IH]; intros loaders input tree Hnd Hin Htree.
  - by apply elem_of_nil in Hin.
  - cbn [fmap list_fmap fst] in Hnd. apply NoDup_cons in Hnd as [Hfresh Hnd].
    unfold Returns in Htree. rewrite loadFields_cons in Htree.
    apply elem_of_cons in Hin as [[= <- <-]|Hin].
    + destruct (instanceof_ZodObject schema) as [sub|].
      * destruct (loadValue_total σ sub (subLoaders key loaders)) as [t Ht].
        rewrite (bind_run _ _ _ _ Ht) in Htree.
        exists t. split; [exact Ht|].
        rewrite (loadFields_frame _ _ _ _ _ _ Hfresh Htree).
        apply lookup_insert_eq.
      * destruct (Yields_all σ schema key loaders) as [yields Hy].
        rewrite (bind_run _ _ _ _ (for_of_loadLeaf _ _ _ _ _ input Hy)) in Htree.
        exists yields. split; [exact Hy|].
        rewrite (loadFields_frame _ _ _ _ _ _ Hfresh Htree).
        apply fold_assign_lookup.
    + assert (Hne : key ≠ key').
      { intros ->. apply Hfresh. apply list_elem_of_fmap. by exists (key', schema). }
      destruct (instanceof_ZodObject schema') as [sub'|].
      * destruct (loadValue_total σ sub' (subLoaders key' loaders)) as [t Ht].
        rewrite (bind_run _ _ _ _ Ht) in Htree.
        specialize (IH _ _ _ Hnd Hin Htree).
        by rewrite lookup_insert_ne in IH.
      * destruct (Yields_all σ schema' key' loaders) as [yields Hy].
        rewrite (bind_run _ _ _ _ (for_of_loadLeaf _ _ _ _ _ input Hy)) in Htree.
        specialize (IH _ _ _ Hnd Hin Htree).
        by rewrite fold_assign_lookup_ne in IH.
Qed.

(** The same for [loadValue], which starts from [{}]. *)
Lemma loadValue_leaf σ shape loaders key schema :
  NoDup shape.*1 ->
  (key, schema) ∈ shape ->
  instanceof_ZodObject schema = None ->
  exists tree yields,
    Returns (loadValue shape loaders) σ tree
    /\ Forall2 (Yields σ schema key) loaders yields
    /\ tree !! key = last_defined yields.
Proof.
  intros Hnd Hin Hleaf.
  destruct (loadValue_total σ shape loaders) as [tree Htree].
  pose proof (loadFields_lookup _ _ _ _ _ _ _ Hnd Hin Htree) as H.
  rewrite Hleaf in H. destruct H as (yields & Hy & Hlook).
  exists tree, yields. repeat split; [exact Htree | exact Hy |].
  rewrite Hlook, lookup_empty. by destruct (last_defined yields).
Qed.

Lemma loadValue_nested σ shape loaders key schema sub :
  NoDup shape.*1 ->
  (key, schema) ∈ shape ->
  instanceof_ZodObject schema = Some sub ->
  exists tree nested,
    Returns (loadValue shape loaders) σ tree
    /\ Returns (loadValue sub (subLoaders key loaders)) σ nested
    /\ tree !! key = Some (JSObject (PlainObject nested)).
Proof.
  intros Hnd Hin Hsub.
  destruct (loadValue_total σ shape loaders) as [tree Htree].
  pose proof (loadFields_lookup _ _ _ _ _ _ _ Hnd Hin Htree) as H.
  rewrite Hsub in H. destruct H as (nested & Hnested & Hlook).
  by exists tree, nested.
Qed.

(** ** The samples are what the library calls build *)

Example port_schema_built :
  env "PORT" number_ initial = (Normal port_schema, port_store).
Proof. reflexivity. Qed.

Example plain_schema_built :
  zod_base initial = (Normal plain_schema, plain_store).
Proof. reflexivity. Qed.

Example status_schema_built :
  env "STATUS" enum_ initial = (Normal status_schema, status_store).
Proof. reflexivity. Qed.

Example unnamed_schema_built :
  env "" enum_ initial = (Normal unnamed_schema, unnamed_store).
Proof. reflexivity. Qed.

Example server_shape_built :
  (let* host := env "H" string_ in
   let* port := env "P" number_ in
   let* server := zod_object [("host", host); ("port", port)] in
   ret [("server", server)]) initial
  = (Normal server_shape, server_store).
Proof. reflexivity. Qed.

(** ** Numbers *)

Lemma isNaN_true x : JSNum.isNaN x = true -> x = JSNum.NaN.
Proof. by destruct x. Qed.

Lemma isInteger_finite x :
  JSNum.isInteger x = true -> JSNum.isFinite x = true /\ JSNum.isNaN x = false.
Proof. by destruct x. Qed.

Lemma isFinite_not_NaN x : JSNum.isFinite x = true -> JSNum.isNaN x = false.
Proof. by destruct x. Qed.

Example Number_3000 : JSNum.Number (Some "3000") = JSNum.of_Z 3000.
Proof. reflexivity. Qed.

Example Number_unset : JSNum.Number None = JSNum.NaN.
Proof. reflexivity. Qed.

Example Number_non_numeric : JSNum.Number (Some "nope") = JSNum.NaN.
Proof. reflexivity. Qed.

Example Number_empty : JSNum.Number (Some "") = SpecFloat.S754_zero false.
Proof. reflexivity. Qed.

Example Number_decimal :
  JSNum.Number (Some "3.14") = SpecFloat.S754_finite false 7070651414971679 (-51)
  /\ JSNum.isInteger (JSNum.Number (Some "3.14")) = false.
Proof. split; reflexivity. Qed.

Lemma defined_true v : defined v = true <-> v <> JSUndefined.
Proof. by destruct v. Qed.

Lemma truthy_string s : truthy (JSString s) = negb (String.eqb s "").
Proof. reflexivity. Qed.

(** ** Merging the sources on a leaf field *)

(** C3. For a leaf field and any ordered list of sources, the value of the
    field in the merged input tree is the value produced by the last source
    that produces a defined value, whatever earlier sources produced; when no
    source produces a defined value the field is absent. *)
Theorem last_defined_source_wins σ shape loaders key schema :
  NoDup shape.*1 ->
  (key, schema) ∈ shape ->
  instanceof_ZodObject schema = None ->
  exists tree,
    Returns (loadValue shape loaders) σ tree
    /\ (forall before source after v,
          loaders = before ++ source :: after ->
          Yields σ schema key source v ->
          v <> JSUndefined ->
          Forall (fun later => Yields σ schema key later JSUndefined) after ->
          tree !! key = Some v)
    /\ (Forall (fun source => Yields σ schema key source JSUndefined) loaders ->
        tree !! key = None).
Proof.
  intros Hnd Hin Hleaf.
  destruct (loadValue_leaf σ shape loaders key schema Hnd Hin Hleaf)
    as (tree & yields & Htree & Hy & Hlook).
  exists tree. split; [exact Htree|]. rewrite Hlook. split.
  - intros before source after v -> Hv Hdef Hafter.
    apply Forall2_app_inv_l in Hy as (yb & ys & _ & Hy & ->).
    apply Forall2_cons_inv_l in Hy as (v' & ya & Hv' & Hya & ->).
    rewrite (Yields_inj _ _ _ _ _ _ Hv' Hv).
    apply last_defined_last; [by apply defined_true|].
    clear -Hafter Hya. induction Hya as [|later w after ya Hw _ IH]; [constructor|].
    apply Forall_cons in Hafter as [Hlater Hafter].
    constructor; [exact (Yields_inj _ _ _ _ _ _ Hw Hlater) | by apply IH].
  - intros Hall. apply last_defined_none.
    clear -Hall Hy. induction Hy as [|source w sources ys Hw _ IH]; [constructor|].
    apply Forall_cons in Hall as [Hsource Hall].
    constructor; [exact (Yields_inj _ _ _ _ _ _ Hw Hsource) | by apply IH].
Qed.

(** The override example of the spec: values then environment. *)
Lemma last_defined_source_wins_witness :
  exists tree,
    Returns (loadValue [("port", port_schema)]
               [ValuesLoader (PlainObject {[ "port" := JSNumber (JSNum.of_Z 8000) ]});
                EnvLoader {[ "PORT" := "9000" ]}]) port_store tree
    /\ tree !! "port" = Some (JSNumber (JSNum.of_Z 9000)).
Proof.
  destruct (last_defined_source_wins port_store [("port", port_schema)]
              [ValuesLoader (PlainObject {[ "port" := JSNumber (JSNum.of_Z 8000) ]});
               EnvLoader {[ "PORT" := "9000" ]}] "port" port_schema)
    as (tree & Htree & Hlast & _).
  - apply NoDup_singleton.
  - apply list_elem_of_singleton. reflexivity.
  - reflexivity.
  - exists tree. split; [exact Htree|].
    apply (Hlast [ValuesLoader (PlainObject {[ "port" := JSNumber (JSNum.of_Z 8000) ]})]
             (EnvLoader {[ "PORT" := "9000" ]}) []).
    + reflexivity.
    + vm_compute. reflexivity.
    + discriminate.
    + constructor.
Defined.

(** The same sources in the other order: the values source comes last and
    wins. *)
Example values_after_environment :
  exists tree,
    Returns (loadValue [("port", port_schema)]
               [EnvLoader {[ "PORT" := "9000" ]};
                ValuesLoader (PlainObject {[ "port" := JSNumber (JSNum.of_Z 8000) ]})])
      port_store tree
    /\ tree !! "port" = Some (JSNumber (JSNum.of_Z 8000)).
Proof. eexists. split; vm_compute; reflexivity. Qed.

(** ** Fields without annotation *)

Lemma last_defined_None yields :
  last_defined yields = None <-> Forall (fun v => v = JSUndefined) yields.
Proof.
  split; [|apply last_defined_none].
  induction yields as [|v yields IH]; [constructor|].
  rewrite last_defined_cons.
  destruct (last_defined yields); [discriminate|].
  destruct v; try discriminate. intros _. constructor; [reflexivity | by apply IH].
Qed.

(** C4, against the claim as stated: a field without annotation that a
    values source defines is present in the merged input tree. *)
Lemma unannotated_field_read_from_values :
  Returns (findMetadata plain_schema) plain_store None
  /\ exists tree,
       Returns (loadValue [("allowedOrigins", plain_schema)]
                  [ValuesLoader
                     (PlainObject {[ "allowedOrigins" := JSString "https://example.com" ]})])
         plain_store tree
       /\ tree !! "allowedOrigins" = Some (JSString "https://example.com")
       /\ tree !! "allowedOrigins" <> None.
Proof.
  split; [reflexivity|]. eexists. split; [vm_compute; reflexivity|].
  split; [vm_compute; reflexivity | discriminate].
Qed.

(** C4, amended. For a leaf field whose schema has no annotation reachable
    by unwrapping, environment sources leave the field unresolved: its value
    in the merged input tree is the last defined value that a values source
    holds under the field name, and the field is absent exactly when no
    values source defines a value under that name. *)
Theorem unannotated_leaf_reads_values_only σ shape loaders key schema :
  NoDup shape.*1 ->
  (key, schema) ∈ shape ->
  instanceof_ZodObject schema = None ->
  Returns (findMetadata schema) σ None ->
  exists tree,
    Returns (loadValue shape loaders) σ tree
    /\ tree !! key = last_defined (map (values_only key) loaders)
    /\ (tree !! key = None <->
        forall values, ValuesLoader values ∈ loaders -> js_get values key = JSUndefined).
Proof.
  intros Hnd Hin Hleaf Hnone.
  destruct (loadValue_leaf σ shape loaders key schema Hnd Hin Hleaf)
    as (tree & yields & Htree & Hy & Hlook).
  assert (Hyields : yields = map (values_only key) loaders).
  { clear -Hy Hnone. induction Hy as [|source v sources ys Hv _ IH]; [reflexivity|].
    cbn [map]. f_equal; [|exact IH].
    destruct source as [env|values]; cbn [Yields values_only] in *; [|exact Hv].
    exact (Returns_inj _ _ _ _ Hv (resolveEnvValue_unbound _ env _ Hnone)). }
  subst yields. exists tree. split; [exact Htree|]. split; [exact Hlook|].
  rewrite Hlook, last_defined_None, Forall_forall. split.
  - intros Hall values Hvalues.
    apply (Hall (values_only key (ValuesLoader values))).
    apply list_elem_of_fmap. by exists (ValuesLoader values).
  - intros Hall v Hv. apply list_elem_of_fmap in Hv as ([env|values] & -> & Hsource).
    + reflexivity.
    + by apply Hall.
Qed.

Lemma unannotated_leaf_reads_values_only_witness :
  exists tree,
    Returns (loadValue [("allowedOrigins", plain_schema)]
               [EnvLoader {[ "allowedOrigins" := "x" ]}]) plain_store tree
    /\ tree !! "allowedOrigins" = None.
Proof.
  destruct (unannotated_leaf_reads_values_only plain_store
              [("allowedOrigins", plain_schema)]
              [EnvLoader {[ "allowedOrigins" := "x" ]}] "allowedOrigins" plain_schema)
    as (tree & Htree & Hlook & _).
  - apply NoDup_singleton.
  - apply list_elem_of_singleton. reflexivity.
  - reflexivity.
  - reflexivity.
  - exists tree. split; [exact Htree | exact Hlook].
Defined.

(** ** Number bindings *)

(** C2, against the claim as stated: a present, non-numeric raw string on a
    number binding is not dropped; the field is assigned [NaN]. *)
Lemma non_numeric_number_is_assigned :
  ({[ "PORT" := "nope" ]} : Env) !! "PORT" = Some "nope"
  /\ JSNum.isNaN (JSNum.Number (Some "nope")) = true
  /\ exists tree,
       Returns (loadValue [("port", port_schema)]
                  [EnvLoader {[ "PORT" := "nope" ]}]) port_store tree
       /\ tree !! "port" = Some (JSNumber JSNum.NaN)
       /\ tree !! "port" <> None.
Proof.
  split; [reflexivity|]. split; [reflexivity|].
  eexists. split; [vm_compute; reflexivity|].
  split; [vm_compute; reflexivity | discriminate].
Qed.

(** C2, amended. For a number binding with a non-empty external key, a raw
    string that is present at the key but non-numeric resolves to [NaN], a
    defined value: the environment source produces it, and as the last
    source of the list it is what the merged input tree holds for the field,
    whatever the earlier sources produced. *)
Theorem non_numeric_number_resolves_to_NaN σ shape before key schema K env raw :
  NoDup shape.*1 ->
  (key, schema) ∈ shape ->
  instanceof_ZodObject schema = None ->
  Returns (findMetadata schema) σ
    (Some {| Metadata.key := K; Metadata.type := "number" |}) ->
  K <> "" ->
  env !! K = Some raw ->
  JSNum.isNaN (JSNum.StringToNumber raw) = true ->
  Yields σ schema key (EnvLoader env) (JSNumber JSNum.NaN)
  /\ exists tree,
       Returns (loadValue shape (before ++ [EnvLoader env])) σ tree
       /\ tree !! key = Some (JSNumber JSNum.NaN).
Proof.
  intros Hnd Hin Hleaf Hbound HK Hraw Hnan.
  assert (Hyield : Yields σ schema key (EnvLoader env) (JSNumber JSNum.NaN)).
  { cbn [Yields]. pose proof (resolveEnvValue_number schema env σ K Hbound HK) as H.
    rewrite Hraw in H. cbn [of_optional_string JSNum.Number] in H.
    rewrite truthy_string in H.
    destruct (String.eqb_spec raw "") as [->|_]; [discriminate Hnan|].
    by rewrite (isNaN_true _ Hnan) in H. }
  split; [exact Hyield|].
  destruct (last_defined_source_wins σ shape (before ++ [EnvLoader env]) key schema
              Hnd Hin Hleaf) as (tree & Htree & Hlast & _).
  exists tree. split; [exact Htree|].
  by apply (Hlast before (EnvLoader env) [] (JSNumber JSNum.NaN)).
Qed.

Lemma non_numeric_number_resolves_to_NaN_witness :
  exists tree,
    Returns (loadValue [("port", port_schema)]
               ([ValuesLoader (PlainObject {[ "port" := JSNumber (JSNum.of_Z 8000) ]})]
                ++ [EnvLoader {[ "PORT" := "nope" ]}])) port_store tree
    /\ tree !! "port" = Some (JSNumber JSNum.NaN).
Proof.
  apply (non_numeric_number_resolves_to_NaN port_store [("port", port_schema)]
           [ValuesLoader (PlainObject {[ "port" := JSNumber (JSNum.of_Z 8000) ]})]
           "port" port_schema "PORT" {[ "PORT" := "nope" ]} "nope").
  - apply NoDup_singleton.
  - apply list_elem_of_singleton. reflexivity.
  - reflexivity.
  - reflexivity.
  - discriminate.
  - reflexivity.
  - reflexivity.
Defined.

(** A numeric raw string resolves to its number. *)
Example number_3000 :
  exists tree,
    Returns (loadValue [("port", port_schema)] [EnvLoader {[ "PORT" := "3000" ]}])
      port_store tree
    /\ tree !! "port" = Some (JSNumber (JSNum.of_Z 3000)).
Proof. eexists. split; vm_compute; reflexivity. Qed.

Lemma last_defined_skip before after :
  last_defined (before ++ JSUndefined :: after) = last_defined (before ++ after).
Proof.
  induction before as [|b before IH]; cbn [app].
  - rewrite last_defined_cons. by destruct (last_defined after).
  - by rewrite !last_defined_cons, IH.
Qed.

(** C9. For a number binding, an environment source that maps the bound key
    to the empty string resolves nothing for the field: the source produces
    no value, the merged input tree holds for the field what it holds
    without that source, and with that source alone the field is absent. No
    number, [0] included, is assigned. *)
Theorem empty_string_number_is_unset σ shape key schema K env :
  NoDup shape.*1 ->
  (key, schema) ∈ shape ->
  instanceof_ZodObject schema = None ->
  Returns (findMetadata schema) σ
    (Some {| Metadata.key := K; Metadata.type := "number" |}) ->
  env !! K = Some "" ->
  Returns (resolveEnvValue schema env) σ JSUndefined
  /\ (forall before after,
        exists tree tree',
          Returns (loadValue shape (before ++ EnvLoader env :: after)) σ tree
          /\ Returns (loadValue shape (before ++ after)) σ tree'
          /\ tree !! key = tree' !! key)
  /\ exists tree,
       Returns (loadValue shape [EnvLoader env]) σ tree /\ tree !! key = None.
Proof.
  intros Hnd Hin Hleaf Hbound Hraw.
  assert (Hyield : Returns (resolveEnvValue schema env) σ JSUndefined).
  { destruct (String.eqb_spec K "") as [->|HK].
    - by apply (resolveEnvValue_empty_key _ _ _ "number").
    - pose proof (resolveEnvValue_number schema env σ K Hbound HK) as H.
      by rewrite Hraw in H. }
  split; [exact Hyield|]. split.
  - intros before after.
    destruct (loadValue_leaf σ shape (before ++ EnvLoader env :: after) key schema
                Hnd Hin Hleaf) as (tree & yields & Htree & Hy & Hlook).
    destruct (loadValue_leaf σ shape (before ++ after) key schema
                Hnd Hin Hleaf) as (tree' & yields' & Htree' & Hy' & Hlook').
    exists tree, tree'. split; [exact Htree|]. split; [exact Htree'|].
    rewrite Hlook, Hlook'.
    apply Forall2_app_inv_l in Hy as (yb & ys & Hyb & Hy & ->).
    apply Forall2_cons_inv_l in Hy as (v & ya & Hv & Hya & ->).
    apply Forall2_app_inv_l in Hy' as (yb' & ya' & Hyb' & Hya' & ->).
    assert (Hfun : forall sources ys1 ys2,
      Forall2 (Yields σ schema key) sources ys1 ->
      Forall2 (Yields σ schema key) sources ys2 -> ys1 = ys2).
    { induction sources as [|source sources IH]; intros ys1 ys2 H1 H2;
        inversion H1; inversion H2; subst; [reflexivity|].
      f_equal; [by eapply Yields_inj | by apply IH]. }
    rewrite (Hfun _ _ _ Hyb' Hyb), (Hfun _ _ _ Hya' Hya).
    cbn [Yields] in Hv. rewrite (Returns_inj _ _ _ _ Hv Hyield).
    apply last_defined_skip.
  - destruct (last_defined_source_wins σ shape [EnvLoader env] key schema
                Hnd Hin Hleaf) as (tree & Htree & _ & Hnone).
    exists tree. split; [exact Htree|]. apply Hnone. by repeat constructor.
Qed.

Lemma empty_string_number_is_unset_witness :
  Returns (resolveEnvValue port_schema {[ "PORT" := "" ]}) port_store JSUndefined
  /\ exists tree,
       Returns (loadValue [("port", port_schema)] [EnvLoader {[ "PORT" := "" ]}])
         port_store tree
       /\ tree !! "port" = None.
Proof.
  destruct (empty_string_number_is_unset port_store [("port", port_schema)]
              "port" port_schema "PORT" {[ "PORT" := "" ]})
    as (Hyield & _ & Htree).
  - apply NoDup_singleton.
  - apply list_elem_of_singleton. reflexivity.
  - reflexivity.
  - reflexivity.
  - reflexivity.
  - split; [exact Hyield | exact Htree].
Defined.

(** ** Enum bindings *)

(** C5, against the claim as stated: on an enum binding whose external key
    is the empty string, a present raw string that is non-empty, numeric and
    integral is resolved neither as a number nor as a string; the guard
    [!envKey] answers [undefined]. *)
Lemma enum_with_empty_key_resolves_nothing :
  ({[ "" := "1" ]} : Env) !! "" = Some "1"
  /\ number_like "1" = true
  /\ Returns (findMetadata unnamed_schema) unnamed_store
       (Some {| Metadata.key := ""; Metadata.type := "enum" |})
  /\ Returns (resolveEnvValue unnamed_schema {[ "" := "1" ]}) unnamed_store JSUndefined.
Proof. repeat split. Qed.

(** The code's test [value && !isNaN(numValue) && Number.isInteger(numValue)]
    is the policy in the words of the spec. *)
Lemma number_like_code v :
  truthy (of_optional_string (Some v))
  && negb (JSNum.isNaN (JSNum.Number (Some v)))
  && JSNum.isInteger (JSNum.Number (Some v))
  = number_like v.
Proof.
  unfold number_like. cbn [of_optional_string JSNum.Number]. rewrite truthy_string.
  destruct (negb (String.eqb v "")); [|reflexivity]. cbn [andb].
  by destruct (JSNum.StringToNumber v).
Qed.

(** C5, amended. For an enum binding with a non-empty external key and a raw
    string [v] present at the key: [v] is resolved as the number it parses to
    exactly when it is non-empty, parses fully to a finite numeric value and
    that value is integral; otherwise it is passed through unchanged as a
    string. *)
Theorem enum_number_or_string σ schema K env v :
  Returns (findMetadata schema) σ
    (Some {| Metadata.key := K; Metadata.type := "enum" |}) ->
  K <> "" ->
  env !! K = Some v ->
  Returns (resolveEnvValue schema env) σ
    (if number_like v then JSNumber (JSNum.StringToNumber v) else JSString v).
Proof.
  intros Hbound HK Hraw.
  pose proof (resolveEnvValue_enum schema env σ K Hbound HK) as H.
  rewrite Hraw in H. cbv zeta in H. rewrite number_like_code in H. exact H.
Qed.

(** A non-integral numeric string stays a string. *)
Lemma enum_number_or_string_witness :
  number_like "3.14" = false
  /\ Returns (resolveEnvValue status_schema {[ "STATUS" := "3.14" ]}) status_store
       (JSString "3.14").
Proof.
  split; [reflexivity|].
  apply (enum_number_or_string status_store status_schema "STATUS"
           {[ "STATUS" := "3.14" ]} "3.14").
  - reflexivity.
  - discriminate.
  - reflexivity.
Defined.

(** The mixed enum of the spec. *)
Example enum_mixed :
  Returns (resolveEnvValue status_schema {[ "STATUS" := "1" ]}) status_store
    (JSNumber (JSNum.of_Z 1))
  /\ Returns (resolveEnvValue status_schema {[ "STATUS" := "pending" ]}) status_store
       (JSString "pending")
  /\ Returns (resolveEnvValue status_schema ∅) status_store JSUndefined.
Proof. repeat split. Qed.

(** ** Nested shapes *)

(** A value is a container when it is an object or an array; these are the
    values the code's test [nested && typeof nested === 'object'] accepts. *)
Lemma container_test nested :
  truthy nested && String.eqb (typeof nested) "object" = true
  <-> exists o, nested = JSObject o.
Proof.
  split.
  - destruct nested as [| |b|n|s|o]; cbn; rewrite ?andb_false_r;
      try discriminate. by eexists.
  - by intros [o ->].
Qed.

(** The sub-loaders of the code are the sources narrowed as the spec says. *)
Lemma subLoaders_narrowed key loaders :
  subLoaders key loaders = map (narrowed key) loaders.
Proof.
  unfold subLoaders. apply map_ext. intros [env|values]; [reflexivity|].
  cbn [narrowed]. cbv zeta.
  destruct (js_get values key) as [| |b|n|s|o]; cbn; by rewrite ?andb_false_r.
Qed.

(** C6. For a field whose schema is a nested shape, the merged input tree
    holds under the field name the result of resolving the nested shape
    against the adjusted source list: each values source narrowed to the
    sub-tree at the field name (the empty tree when that is absent or not a
    container), each environment source unchanged.  The statement is about
    any shape and any source list, hence about every nesting level. *)
Theorem nested_shape_narrows_sources σ shape loaders key schema sub :
  NoDup shape.*1 ->
  (key, schema) ∈ shape ->
  instanceof_ZodObject schema = Some sub ->
  exists tree nested,
    Returns (loadValue shape loaders) σ tree
    /\ Returns (loadValue sub (map (narrowed key) loaders)) σ nested
    /\ tree !! key = Some (JSObject (PlainObject nested)).
Proof.
  intros Hnd Hin Hsub. rewrite <- subLoaders_narrowed.
  by apply (loadValue_nested σ shape loaders key schema sub).
Qed.

(** A values source with [server.port] and an environment source with [H]:
    the nested shape is resolved against [{ port: 8000 }] and the same
    environment. *)
Lemma nested_shape_narrows_sources_witness :
  map (narrowed "server")
    [ValuesLoader
       (PlainObject
          {[ "server" :=
               JSObject (PlainObject {[ "port" := JSNumber (JSNum.of_Z 8000) ]}) ]});
     EnvLoader {[ "H" := "0.0.0.0" ]}]
  = [ValuesLoader (PlainObject {[ "port" := JSNumber (JSNum.of_Z 8000) ]});
     EnvLoader {[ "H" := "0.0.0.0" ]}]
  /\ exists tree nested,
       Returns (loadValue server_shape
                  [ValuesLoader
                     (PlainObject
                        {[ "server" :=
                             JSObject
                               (PlainObject {[ "port" := JSNumber (JSNum.of_Z 8000) ]}) ]});
                   EnvLoader {[ "H" := "0.0.0.0" ]}]) server_store tree
       /\ Returns (loadValue [("host", host_schema); ("port", server_port_schema)]
                     (map (narrowed "server")
                        [ValuesLoader
                           (PlainObject
                              {[ "server" :=
                                   JSObject
                                     (PlainObject
                                        {[ "port" := JSNumber (JSNum.of_Z 8000) ]}) ]});
                         EnvLoader {[ "H" := "0.0.0.0" ]}])) server_store nested
       /\ tree !! "server" = Some (JSObject (PlainObject nested)).
Proof.
  split; [reflexivity|].
  apply (nested_shape_narrows_sources server_store server_shape _ "server"
           server_schema [("host", host_schema); ("port", server_port_schema)]).
  - apply NoDup_singleton.
  - apply list_elem_of_singleton. reflexivity.
  - reflexivity.
Defined.

(** A sub-tree that is not a container is replaced by the empty tree. *)
Example narrowed_not_a_container :
  narrowed "server" (ValuesLoader (PlainObject {[ "server" := JSString "x" ]}))
  = ValuesLoader empty_object
  /\ narrowed "server" (ValuesLoader (PlainObject {[ "server" := JSNull ]}))
     = ValuesLoader empty_object
  /\ narrowed "server" (ValuesLoader empty_object) = ValuesLoader empty_object.
Proof. repeat split. Qed.

(** The end-to-end example of the spec, before validation: [host] comes from
    the environment, [port] is left to the schema's default. *)
Example server_tree :
  exists tree,
    Returns (loadValue server_shape [EnvLoader {[ "H" := "0.0.0.0" ]}]) server_store tree
    /\ tree = {[ "server" :=
                   JSObject (PlainObject {[ "host" := JSString "0.0.0.0" ]}) ]}.
Proof. eexists. split; vm_compute; reflexivity. Qed.

(** The same at any depth: along a path of nested fields the tree holds the
    nested shape resolved against the sources narrowed once per level, and an
    environment source is the same at every level. *)
Lemma nested_levels σ shape path shape' :
  descends shape path shape' ->
  forall loaders,
    exists tree nested,
      Returns (loadValue shape loaders) σ tree
      /\ Returns (loadValue shape' (map (narrowed_along path) loaders)) σ nested
      /\ tree_at tree path = Some nested.
Proof.
  induction 1 as [shape | shape key schema sub path shape' Hnd Hin Hsub _ IH];
    intros loaders.
  - destruct (loadValue_total σ shape loaders) as [tree Htree].
    exists tree, tree. split; [exact Htree|]. split; [|reflexivity].
    change (map (narrowed_along []) loaders) with (map (fun x : Loader => x) loaders).
    by rewrite List.map_id.
  - destruct (loadValue_nested σ shape loaders key schema sub Hnd Hin Hsub)
      as (tree & sub_tree & Htree & Hsub_tree & Hlook).
    rewrite subLoaders_narrowed in Hsub_tree.
    destruct (IH (map (narrowed key) loaders)) as (sub_tree' & nested & Hsub' & Hnested & Hat).
    rewrite (Returns_inj _ _ _ _ Hsub' Hsub_tree) in Hat.
    exists tree, nested. split; [exact Htree|]. split.
    + by rewrite map_map in Hnested.
    + cbn [tree_at]. by rewrite Hlook.
Qed.

Lemma narrowed_along_environment path env :
  narrowed_along path (EnvLoader env) = EnvLoader env.
Proof. induction path as [|key path IH]; [reflexivity | exact IH]. Qed.

(** C10. In the merged input tree every field whose schema is a nested shape
    is present and holds an object, for every source list. *)
Theorem nested_group_always_present σ shape loaders key schema sub :
  NoDup shape.*1 ->
  (key, schema) ∈ shape ->
  instanceof_ZodObject schema = Some sub ->
  exists tree props,
    Returns (loadValue shape loaders) σ tree
    /\ tree !! key = Some (JSObject (PlainObject props)).
Proof.
  intros Hnd Hin Hsub.
  destruct (loadValue_nested σ shape loaders key schema sub Hnd Hin Hsub)
    as (tree & nested & Htree & _ & Hlook).
  by exists tree, nested.
Qed.

(** No source supplies anything beneath [server]: the group is the empty
    object. *)
Lemma nested_group_always_present_witness :
  exists tree props,
    Returns (loadValue server_shape
               [ValuesLoader (PlainObject {[ "server" := JSNull ]}); EnvLoader ∅])
      server_store tree
    /\ tree !! "server" = Some (JSObject (PlainObject props)).
Proof.
  apply (nested_group_always_present server_store server_shape _ "server"
           server_schema [("host", host_schema); ("port", server_port_schema)]).
  - apply NoDup_singleton.
  - apply list_elem_of_singleton. reflexivity.
  - reflexivity.
Defined.

Example nested_group_empty :
  exists tree,
    Returns (loadValue server_shape
               [ValuesLoader (PlainObject {[ "server" := JSNull ]}); EnvLoader ∅])
      server_store tree
    /\ tree = {[ "server" := JSObject empty_object ]}.
Proof. eexists. split; vm_compute; reflexivity. Qed.

(** ** Determinism *)

(** C8. Resolution completes with a tree and leaves the store as it found
    it, so that resolving the same shape against the same sources a second
    time gives the same tree. *)
Theorem resolution_is_repeatable σ shape loaders :
  exists tree,
    Returns (loadValue shape loaders) σ tree
    /\ (let* first := loadValue shape loaders in
        let* second := loadValue shape loaders in
        ret (first, second)) σ = (Normal (tree, tree), σ).
Proof.
  destruct (loadValue_total σ shape loaders) as [tree Htree].
  exists tree. split; [exact Htree|].
  by rewrite !(bind_run _ _ _ _ Htree).
Qed.

(** ** [load] and [safeLoad] *)

(** C7. [safeLoad] resolves, validates and returns the verdict as a value,
    without raising; [load] runs the same resolution and validation, returns
    the validated data exactly when the verdict is a success, and otherwise
    raises the error of the verdict. *)
Theorem load_agrees_with_safeLoad
    (safeParse : ZodType -> JSValue -> SafeParseResult)
    (this : ZodConfSchema) (loaders : list Loader) (σ : Store) :
  exists tree result,
    Returns (loadValue (shape this) loaders) σ tree
    /\ result = safeParse (schema this) (JSObject (PlainObject tree))
    /\ safeLoad safeParse this loaders σ = (Normal result, σ)
    /\ load safeParse this loaders σ
       = (match result with
          | Success data => Normal data
          | Failure error => Throw error
          end, σ).
Proof.
  destruct (loadValue_total σ (shape this) loaders) as [tree Htree].
  exists tree, (safeParse (schema this) (JSObject (PlainObject tree))).
  split; [exact Htree|]. split; [reflexivity|].
  assert (Hsafe : Returns (safeLoad safeParse this loaders) σ
                    (safeParse (schema this) (JSObject (PlainObject tree)))).
  { unfold safeLoad. eapply Returns_bind; [exact Htree | apply Returns_ret]. }
  split; [exact Hsafe|].
  unfold load. rewrite (bind_run _ _ _ _ Hsafe). by destruct (safeParse _ _).
Qed.

(** ** The store under the library calls *)

Lemma grows_refl σ : grows σ σ.
Proof. split; [reflexivity | done]. Qed.

Lemma grows_trans σ1 σ2 σ3 : grows σ1 σ2 -> grows σ2 σ3 -> grows σ1 σ3.
Proof.
  intros [Hle12 H12] [Hle23 H23]. split; [by etrans|].
  intros id Hid. rewrite H23, H12; [done..|].
  eapply Pos.lt_le_trans; eassumption.
Qed.

Lemma fresh_grows σ :
  grows σ {| next_id := Pos.succ (next_id σ); _envMetadata := _envMetadata σ |}.
Proof. split; cbn; [apply Pos.lt_le_incl, Pos.lt_succ_diag_r | done]. Qed.

Lemma wrap_grows schema envKey envType σ :
  grows σ (wrap schema envKey envType σ).2.
Proof.
  rewrite wrap_run. split; cbn [snd next_id _envMetadata].
  - apply Pos.lt_le_incl, Pos.lt_succ_diag_r.
  - intros id Hid. apply lookup_insert_ne. intros <-. by apply Pos.lt_irrefl in Hid.
Qed.

(** What [wrap] adds to the store is one registration, of its own key and
    type, under the identity of the proxy it returns. *)
Lemma wrap_registers schema envKey envType σ id md :
  _envMetadata (wrap schema envKey envType σ).2 !! id = Some md ->
  _envMetadata σ !! id = Some md
  \/ md = {| Metadata.key := envKey; Metadata.type := envType |}.
Proof.
  rewrite wrap_run. cbn [snd _envMetadata]. rewrite lookup_insert.
  case_decide; [intros [= <-]; by right | by left].
Qed.

Section Growth.

Variable zod_def : Combinator -> ZodType -> option ZodType * option ZodType.

Lemma zod_method_run c this σ :
  zod_method zod_def c this σ =
  (Normal (ZodSchema (next_id σ) (zod_def c this).1 (zod_def c this).2),
   {| next_id := Pos.succ (next_id σ); _envMetadata := _envMetadata σ |}).
Proof. reflexivity. Qed.

Lemma call_grows s c : forall σ s' σ',
  call zod_def s c σ = (Normal s', σ') -> grows σ σ'.
Proof.
  induction s as [id i sc | id shape | id target IH k ty]; intros σ s' σ' Hcall;
    cbn [call] in Hcall.
  - rewrite zod_method_run in Hcall. injection Hcall as _ <-. apply fresh_grows.
  - rewrite zod_method_run in Hcall. injection Hcall as _ <-. apply fresh_grows.
  - destruct (call_total zod_def target c σ) as (r & σ1 & Hr).
    unfold bind at 1 in Hcall. rewrite Hr in Hcall.
    eapply grows_trans; [by eapply IH|].
    pose proof (wrap_grows r k ty σ1) as Hw. by rewrite Hcall in Hw.
Qed.

(** A combinator call on a built proxy: the result is built with the same
    key and type, the store has grown, and the one registration added is the
    binding's own. *)
Lemma call_Built s c md σ :
  Built σ s md ->
  exists s' σ',
    call zod_def s c σ = (Normal s', σ')
    /\ Built σ' s' md
    /\ grows σ σ'
    /\ forall id md', _envMetadata σ' !! id = Some md' ->
          _envMetadata σ !! id = Some md' \/ md' = md.
Proof.
  intros (id & id0 & i & sc & -> & Hid & Hlt). cbn [call].
  unfold bind at 1. rewrite zod_method_run. rewrite wrap_run.
  eexists _, _. split; [reflexivity|]. cbn [next_id _envMetadata]. repeat split.
  - eexists _, _, _, _. split; [reflexivity|]. cbn [next_id _envMetadata].
    split; [rewrite lookup_insert_eq; by destruct md | apply Pos.lt_succ_diag_r].
  - cbn [next_id]. apply Pos.lt_le_incl.
    etrans; apply Pos.lt_succ_diag_r.
  - cbn [next_id _envMetadata]. intros id' Hid'. apply lookup_insert_ne.
    intros <-. apply (Pos.lt_irrefl (Pos.succ (next_id σ))).
    etrans; [exact Hid' | apply Pos.lt_succ_diag_r].
  - intros id' md'. rewrite lookup_insert.
    case_decide; [intros [= <-]; right; by destruct md | by left].
Qed.

Lemma chain_Built cs : forall s md σ,
  Built σ s md ->
  exists s' σ',
    chain zod_def s cs σ = (Normal s', σ')
    /\ Built σ' s' md
    /\ grows σ σ'
    /\ forall id md', _envMetadata σ' !! id = Some md' ->
          _envMetadata σ !! id = Some md' \/ md' = md.
Proof.
  induction cs as [|c cs IH]; intros s md σ Hs; cbn [chain].
  - eexists _, _. split; [reflexivity|]. split; [exact Hs|].
    split; [apply grows_refl | by left].
  - destruct (call_Built s c md σ Hs) as (s1 & σ1 & Hcall & Hs1 & Hg1 & Hnew1).
    destruct (IH s1 md σ1 Hs1) as (s2 & σ2 & Hchain & Hs2 & Hg2 & Hnew2).
    exists s2, σ2. unfold bind at 1. rewrite Hcall.
    split; [exact Hchain|]. split; [exact Hs2|].
    split; [by eapply grows_trans|].
    intros id md' Hid. destruct (Hnew2 id md' Hid) as [Hold| ->]; [|by right].
    by apply Hnew1.
Qed.

End Growth.

Lemma env_run key m σ :
  env key m σ =
  (Normal (ZodProxy (Pos.succ (next_id σ)) (ZodSchema (next_id σ) None None)
             key (envType_of m)),
   {| next_id := Pos.succ (Pos.succ (next_id σ));
      _envMetadata :=
        <[Pos.succ (next_id σ) :=
            {| Metadata.key := key; Metadata.type := envType_of m |}]>
          (_envMetadata σ) |}).
Proof. reflexivity. Qed.

Lemma env_Built key m σ :
  exists s σ',
    env key m σ = (Normal s, σ')
    /\ Built σ' s {| Metadata.key := key; Metadata.type := envType_of m |}
    /\ grows σ σ'
    /\ forall id md', _envMetadata σ' !! id = Some md' ->
          _envMetadata σ !! id = Some md'
          \/ md' = {| Metadata.key := key; Metadata.type := envType_of m |}.
Proof.
  rewrite env_run.
  eexists _, _. split; [reflexivity|]. cbn [next_id _envMetadata]. repeat split.
  - eexists _, _, _, _. split; [reflexivity|]. cbn [next_id _envMetadata].
    split; [by rewrite lookup_insert_eq | apply Pos.lt_succ_diag_r].
  - cbn [next_id]. apply Pos.lt_le_incl. etrans; apply Pos.lt_succ_diag_r.
  - cbn [next_id _envMetadata]. intros id' Hid'. apply lookup_insert_ne.
    intros <-. apply (Pos.lt_irrefl (Pos.succ (next_id σ))).
    etrans; [exact Hid' | apply Pos.lt_succ_diag_r].
  - intros id' md'. rewrite lookup_insert.
    case_decide; [intros [= <-]; by right | by left].
Qed.

Lemma Built_Bound σ s md : Built σ s md -> Bound σ s md.
Proof. intros (id & id0 & i & sc & -> & Hid & _). by eexists _, _. Qed.

Lemma Built_grows σ σ' s md : grows σ σ' -> Built σ s md -> Built σ' s md.
Proof.
  intros [Hle Hsame] (id & id0 & i & sc & -> & Hid & Hlt).
  eexists _, _, _, _. split; [reflexivity|]. split.
  - by rewrite Hsame.
  - eapply Pos.lt_le_trans; eassumption.
Qed.

(** X1. Building a binding, [env(K)] followed by any chain of combinators,
    only adds to the annotation store: registrations that were there are kept
    as they were, none is removed or overwritten, and every registration
    added carries the key and the type of the binding being built. *)
Theorem binding_only_adds_own_registrations
    (zod_def : Combinator -> ZodType -> option ZodType * option ZodType)
    (K : string) (m : EnvMethod) (cs : list Combinator) (σ : Store) :
  exists s σ',
    (let* bound := env K m in chain zod_def bound cs) σ = (Normal s, σ')
    /\ grows σ σ'
    /\ forall id md, _envMetadata σ' !! id = Some md ->
          _envMetadata σ !! id = Some md
          \/ md = {| Metadata.key := K; Metadata.type := envType_of m |}.
Proof.
  destruct (env_Built K m σ) as (s0 & σ0 & Henv & Hs0 & Hg0 & Hnew0).
  destruct (chain_Built zod_def cs s0 _ σ0 Hs0) as (s & σ' & Hchain & _ & Hg & Hnew).
  exists s, σ'. split; [unfold bind; by rewrite Henv|].
  split; [by eapply grows_trans|].
  intros id md Hid. destruct (Hnew id md Hid) as [Hold| ->]; [|by right].
  by apply Hnew0.
Qed.

(** X2. Two bindings built one after the other, each with its own chain of
    combinators, stay apart: in the final store the walk finds on the first
    the first key and type and on the second the second key and type. *)
Theorem bindings_are_independent
    (zod_def : Combinator -> ZodType -> option ZodType * option ZodType)
    (K1 K2 : string) (m1 m2 : EnvMethod) (cs1 cs2 : list Combinator) (σ : Store) :
  exists s1 s2 σ',
    (let* first := (let* bound := env K1 m1 in chain zod_def bound cs1) in
     let* second := (let* bound := env K2 m2 in chain zod_def bound cs2) in
     ret (first, second)) σ = (Normal (s1, s2), σ')
    /\ Returns (findMetadata s1) σ'
         (Some {| Metadata.key := K1; Metadata.type := envType_of m1 |})
    /\ Returns (findMetadata s2) σ'
         (Some {| Metadata.key := K2; Metadata.type := envType_of m2 |}).
Proof.
  destruct (env_Built K1 m1 σ) as (a0 & σa0 & Ha0 & Hba0 & _ & _).
  destruct (chain_Built zod_def cs1 a0 _ σa0 Hba0) as (s1 & σ1 & Hc1 & Hb1 & _ & _).
  destruct (env_Built K2 m2 σ1) as (b0 & σb0 & Hb0 & Hbb0 & Hg0 & _).
  destruct (chain_Built zod_def cs2 b0 _ σb0 Hbb0) as (s2 & σ2 & Hc2 & Hb2 & Hg2 & _).
  exists s1, s2, σ2. split.
  - unfold bind. rewrite Ha0, Hc1, Hb0, Hc2. reflexivity.
  - split; apply Bound_findMetadata, Built_Bound; [|exact Hb2].
    eapply Built_grows; [|exact Hb1]. by eapply grows_trans.
Qed.

(** ** Resolution reads the registrations of the shape only *)

Section SameRegistrations.

Variable P : positive -> bool.
Variables σ σ' : Store.
Hypothesis Hsame : forall id,
  P id = true -> _envMetadata σ' !! id = _envMetadata σ !! id.

Lemma findMetadata_same s :
  identities_satisfy P s = true ->
  forall found,
    Returns (findMetadata s) σ found -> Returns (findMetadata s) σ' found.
Proof.
  unfold Returns.
  assert (Hstep : forall o,
    identities_satisfy P o = true ->
    (forall found,
       match def_innerType o with
       | Some innerType => findMetadata innerType σ
       | None =>
           match def_schema o with
           | Some schema => findMetadata schema σ
           | None => (Normal None, σ)
           end
       end = (Normal found, σ) ->
       match def_innerType o with
       | Some innerType => findMetadata innerType σ'
       | None =>
           match def_schema o with
           | Some schema => findMetadata schema σ'
           | None => (Normal None, σ')
           end
       end = (Normal found, σ')) ->
    forall found,
      findMetadata o σ = (Normal found, σ) -> findMetadata o σ' = (Normal found, σ')).
  { intros o Ho Hrest found. rewrite !findMetadata_unfold.
    assert (Hid : P (identity o) = true).
    { destruct o; cbn in Ho; repeat (apply andb_prop in Ho as [Ho ?]); done. }
    rewrite (Hsame _ Hid). destruct (_envMetadata σ !! identity o); [|apply Hrest].
    by intros [= <-]. }
  intros Hs. apply (Hstep s Hs). revert Hs.
  induction s as [id i sc IHi IHsc | id shape _ | id target k ty IH]
    using ZodType_nested_ind; cbn [identities_satisfy def_innerType def_schema];
    intros Hs.
  - apply andb_prop in Hs as [Hs Hsc]. apply andb_prop in Hs as [_ Hi].
    destruct i as [i|]; [exact (Hstep i Hi (IHi Hi))|].
    destruct sc as [sc|]; [exact (Hstep sc Hsc (IHsc Hsc))|].
    by intros found [= <-].
  - by intros found [= <-].
  - apply andb_prop in Hs as [_ Hs]. by apply IH.
Qed.

Lemma resolveEnvValue_same schema e v :
  identities_satisfy P schema = true ->
  Returns (resolveEnvValue schema e) σ v ->
  Returns (resolveEnvValue schema e) σ' v.
Proof.
  intros Hs Hv.
  destruct (findMetadata_total schema σ) as [found Hfound].
  pose proof (findMetadata_same schema Hs found Hfound) as Hfound'.
  unfold Returns in *.
  rewrite (resolveEnvValue_run _ _ _ _ Hfound) in Hv.
  rewrite (resolveEnvValue_run _ _ _ _ Hfound').
  destruct found as [md|]; [|by injection Hv as <-]. cbv zeta in *.
  repeat (match goal with |- context [if ?b then _ else _] => destruct b end);
    by injection Hv as <-.
Qed.

Lemma Yields_same schema key :
  identities_satisfy P schema = true ->
  forall loaders yields,
    Forall2 (Yields σ schema key) loaders yields ->
    Forall2 (Yields σ' schema key) loaders yields.
Proof.
  intros Hs loaders yields Hy. eapply Forall2_impl; [exact Hy|].
  intros [e|values] v; cbn [Yields]; [|done].
  by apply resolveEnvValue_same.
Qed.

Lemma loadFields_same fields :
  Forall (fun field =>
            identities_satisfy P field.2 = true ->
            forall shape, instanceof_ZodObject field.2 = Some shape ->
            forall loaders input tree,
              Returns (loadFields loadObject shape loaders input) σ tree ->
              Returns (loadFields loadObject shape loaders input) σ' tree) fields ->
  forallb (fun field => identities_satisfy P field.2) fields = true ->
  forall loaders input tree,
    Returns (loadFields loadObject fields loaders input) σ tree ->
    Returns (loadFields loadObject fields loaders input) σ' tree.
Proof.
  intros Hnested.
  induction Hnested as [|[key schema] rest Hschema _ IH];
    intros Hall loaders input tree Htree.
  - unfold Returns in *. cbn in *. by injection Htree as <-.
  - cbn [forallb snd] in Hall, Hschema. apply andb_prop in Hall as [Hs Hall].
    unfold Returns in *. rewrite loadFields_cons in *.
    destruct (instanceof_ZodObject schema) as [sub|] eqn:Hsub.
    + destruct (loadValue_total σ sub (subLoaders key loaders)) as [t Ht].
      rewrite (bind_run _ _ _ _ Ht) in Htree.
      rewrite (bind_run _ _ _ _ (Hschema Hs sub eq_refl _ _ _ Ht)).
      by apply IH.
    + destruct (Yields_all σ schema key loaders) as [yields Hy].
      rewrite (bind_run _ _ _ _ (for_of_loadLeaf _ _ _ _ _ input Hy)) in Htree.
      pose proof (Yields_same schema key Hs _ _ Hy) as Hy'.
      rewrite (bind_run _ _ _ _ (for_of_loadLeaf _ _ _ _ _ input Hy')).
      by apply IH.
Qed.

Lemma loadObject_same schema :
  identities_satisfy P schema = true ->
  forall shape, instanceof_ZodObject schema = Some shape ->
  forall loaders input tree,
    Returns (loadFields loadObject shape loaders input) σ tree ->
    Returns (loadFields loadObject shape loaders input) σ' tree.
Proof.
  induction schema as [id i sc _ _ | id shape IH | id target k ty IH]
    using ZodType_nested_ind; cbn [identities_satisfy instanceof_ZodObject];
    intros Hs sub Hsub.
  - discriminate.
  - injection Hsub as <-. apply andb_prop in Hs as [_ Hs].
    by apply loadFields_same.
  - apply andb_prop in Hs as [_ Hs]. by apply IH.
Qed.

Lemma loadValue_same shape loaders tree :
  forallb (fun field => identities_satisfy P field.2) shape = true ->
  Returns (loadValue shape loaders) σ tree ->
  Returns (loadValue shape loaders) σ' tree.
Proof.
  intros Hall. apply loadFields_same; [|exact Hall].
  apply Forall_forall. intros field _ Hs. by apply loadObject_same.
Qed.

End SameRegistrations.

Lemma env_grows key m σ : grows σ (env key m σ).2.
Proof.
  destruct (env_Built key m σ) as (s & σ' & Henv & _ & Hg & _). by rewrite Henv.
Qed.

(** X3. A shape built before the allocator reached its present value
    resolves to the same tree in every later store: bindings created after
    the shape do not change what the shape resolves to. *)
Theorem resolution_survives_later_bindings σ σ' shape loaders tree :
  grows σ σ' ->
  forallb (fun field => allocated (next_id σ) field.2) shape = true ->
  Returns (loadValue shape loaders) σ tree ->
  Returns (loadValue shape loaders) σ' tree.
Proof.
  intros [_ Hsame] Hall.
  apply (loadValue_same (fun id => (id <? next_id σ)%positive)); [|exact Hall].
  intros id Hid. by apply Hsame, Pos.ltb_lt.
Qed.

(** The port shape after [env('HOST').string()] was built as well. *)
Lemma resolution_survives_later_bindings_witness :
  Returns (loadValue [("port", port_schema)] [EnvLoader {[ "PORT" := "3000" ]}])
    (env "HOST" string_ port_store).2
    {[ "port" := JSNumber (JSNum.of_Z 3000) ]}.
Proof.
  apply (resolution_survives_later_bindings port_store).
  - apply env_grows.
  - reflexivity.
  - vm_compute. reflexivity.
Defined.

(** ** Bindings by type, from [env(K)] to the merged tree *)

Lemma Built_leaf σ s md : Built σ s md -> instanceof_ZodObject s = None.
Proof. by intros (id & id0 & i & sc & -> & _). Qed.

(** One environment source on a leaf field: the field holds what the source
    resolves, when that is defined. *)
Lemma loadValue_single_env σ shape key schema env v :
  NoDup shape.*1 ->
  (key, schema) ∈ shape ->
  instanceof_ZodObject schema = None ->
  Returns (resolveEnvValue schema env) σ v ->
  exists tree,
    Returns (loadValue shape [EnvLoader env]) σ tree
    /\ tree !! key = if defined v then Some v else None.
Proof.
  intros Hnd Hin Hleaf Hv.
  destruct (loadValue_leaf σ shape [EnvLoader env] key schema Hnd Hin Hleaf)
    as (tree & yields & Htree & Hy & Hlook).
  exists tree. split; [exact Htree|].
  apply Forall2_cons_inv_l in Hy as (w & ys & Hw & Hys & ->).
  apply Forall2_nil_inv_l in Hys as ->.
  cbn [Yields] in Hw. rewrite (Returns_inj _ _ _ _ Hw Hv) in Hlook.
  rewrite Hlook, last_defined_cons. cbn. by destruct (defined v).
Qed.


Lemma resolveEnvValue_boolean schema env σ K :
  Returns (findMetadata schema) σ
    (Some {| Metadata.key := K; Metadata.type := "boolean" |}) ->
  K <> "" ->
  Returns (resolveEnvValue schema env) σ
    (if decide (env !! K = Some "true") then JSBoolean true
     else if decide (env !! K = Some "false") then JSBoolean false
     else JSUndefined).
Proof.
  intros H HK. unfold Returns. rewrite (resolveEnvValue_run _ _ _ _ H).
  cbn [Metadata.key Metadata.type]. cbv zeta.
  apply String.eqb_neq in HK. by rewrite HK.
Qed.

(** The binding built by [env(K)] and a chain, with what the walk finds on
    it. *)
Lemma binding_built zod_def K m cs σ :
  exists s σ',
    (let* bound := env K m in chain zod_def bound cs) σ = (Normal s, σ')
    /\ instanceof_ZodObject s = None
    /\ Returns (findMetadata s) σ'
         (Some {| Metadata.key := K; Metadata.type := envType_of m |}).
Proof.
  destruct (env_Built K m σ) as (s0 & σ0 & Henv & Hs0 & _ & _).
  destruct (chain_Built zod_def cs s0 _ σ0 Hs0) as (s & σ' & Hchain & Hs & _ & _).
  exists s, σ'. split; [unfold bind; by rewrite Henv|].
  split; [by eapply Built_leaf | by apply Bound_findMetadata, Built_Bound].
Qed.





(** X6. A boolean binding, [env(K).boolean()] with a non-empty key and any
    chain of combinators, resolves from one environment source to [true] for
    the raw string ["true"], to [false] for ["false"], and leaves the field
    absent for every other raw string (other spellings and the empty string
    included) and for an unset key. *)
Theorem boolean_binding_accepts_true_false
    (zod_def : Combinator -> ZodType -> option ZodType * option ZodType)
    (K : string) (cs : list Combinator) (σ : Store) (vars : Env) :
  K <> "" ->
  exists s σ',
    (let* bound := env K boolean_ in chain zod_def bound cs) σ = (Normal s, σ')
    /\ forall shape key,
         NoDup shape.*1 ->
         (key, s) ∈ shape ->
         exists tree,
           Returns (loadValue shape [EnvLoader vars]) σ' tree
           /\ (vars !! K = Some "true" -> tree !! key = Some (JSBoolean true))
           /\ (vars !! K = Some "false" -> tree !! key = Some (JSBoolean false))
           /\ (vars !! K <> Some "true" -> vars !! K <> Some "false" ->
               tree !! key = None).
Proof.
  intros HK.
  destruct (binding_built zod_def K boolean_ cs σ) as (s & σ' & Hrun & Hleaf & Hfound).
  exists s, σ'. split; [exact Hrun|]. intros shape key Hnd Hin.
  destruct (loadValue_single_env σ' shape key s vars _ Hnd Hin Hleaf
              (resolveEnvValue_boolean s vars σ' K Hfound HK)) as (tree & Htree & Hlook).
  exists tree. split; [exact Htree|]. rewrite Hlook.
  repeat split.
  - intros ->. reflexivity.
  - intros ->. reflexivity.
  - intros Ht Hf. by rewrite !decide_False.
Qed.

Lemma boolean_binding_accepts_true_false_witness :
  exists s σ',
    (let* bound := env "DEBUG" boolean_ in
     chain zod_effects bound [default_]) initial = (Normal s, σ')
    /\ exists tree,
         Returns (loadValue [("debug", s)] [EnvLoader {[ "DEBUG" := "TRUE" ]}]) σ' tree
         /\ tree !! "debug" = None.
Proof.
  destruct (boolean_binding_accepts_true_false zod_effects "DEBUG" [default_]
              initial {[ "DEBUG" := "TRUE" ]}) as (s & σ' & Hrun & Hshape).
  - discriminate.
  - exists s, σ'. split; [exact Hrun|].
    destruct (Hshape [("debug", s)] "debug") as (tree & Htree & _ & _ & Hother).
    + apply NoDup_singleton.
    + apply list_elem_of_singleton. reflexivity.
    + exists tree. split; [exact Htree|]. apply Hother; discriminate.
Defined.

(** ** What a merged tree can hold *)

Lemma fold_assign_entries key yields : forall input k v,
  fold_left (assign key) yields input !! k = Some v ->
  input !! k = Some v \/ (k = key /\ v ∈ yields /\ v <> JSUndefined).
Proof.
  induction yields as [|w yields IH]; intros input k v Hv; [by left|].
  cbn [fold_left] in Hv. destruct (IH _ _ _ Hv) as [Hin|(-> & Hin & Hdef)].
  - unfold assign in Hin. destruct (defined w) eqn:Hw; [|by left].
    rewrite lookup_insert in Hin. case_decide as Hk; [|by left].
    injection Hin as <-. right. split; [done|]. split; [by left|].
    by apply defined_true.
  - right. split; [done|]. split; [by right | done].
Qed.

Lemma Forall2_Yields_source σ schema key loaders yields v :
  Forall2 (Yields σ schema key) loaders yields ->
  v ∈ yields ->
  exists source, source ∈ loaders /\ Yields σ schema key source v.
Proof.
  induction 1 as [|source w loaders yields Hw _ IH]; intros Hv.
  - by apply elem_of_nil in Hv.
  - apply elem_of_cons in Hv as [->|Hv].
    + exists source. split; [by left | done].
    + destruct (IH Hv) as (source' & Hin & Hy). exists source'. split; [by right | done].
Qed.

(** Every entry of the tree the loop returns was in [input] or belongs to
    one of the fields: a group object for a nested shape, a defined value
    produced by one of the loaders for a leaf. *)
Lemma loadFields_entries σ fields : forall loaders input tree k v,
  Returns (loadFields loadObject fields loaders input) σ tree ->
  tree !! k = Some v ->
  input !! k = Some v
  \/ exists schema,
       (k, schema) ∈ fields
       /\ match instanceof_ZodObject schema with
          | Some sub =>
              exists nested,
                Returns (loadValue sub (subLoaders k loaders)) σ nested
                /\ v = JSObject (PlainObject nested)
          | None =>
              v <> JSUndefined
              /\ exists source, source ∈ loaders /\ Yields σ schema k source v
          end.
Proof.
  induction fields as [|[key schema] rest IH]; intros loaders input tree k v Htree Hv.
  - unfold Returns in Htree. cbn in Htree. injection Htree as <-. by left.
  - unfold Returns in Htree. rewrite loadFields_cons in Htree.
    destruct (instanceof_ZodObject schema) as [sub|] eqn:Hsub.
    + destruct (loadValue_total σ sub (subLoaders key loaders)) as [t Ht].
      rewrite (bind_run _ _ _ _ Ht) in Htree.
      destruct (IH _ _ _ _ _ Htree Hv) as [Hin|(schema' & Hin & Hfield)].
      * rewrite lookup_insert in Hin. case_decide as Hk; [|by left].
        injection Hin as <-. subst k. right. exists schema.
        split; [by left|]. rewrite Hsub. by exists t.
      * right. exists schema'. split; [by right | exact Hfield].
    + destruct (Yields_all σ schema key loaders) as [yields Hy].
      rewrite (bind_run _ _ _ _ (for_of_loadLeaf _ _ _ _ _ input Hy)) in Htree.
      destruct (IH _ _ _ _ _ Htree Hv) as [Hin|(schema' & Hin & Hfield)].
      * destruct (fold_assign_entries _ _ _ _ _ Hin) as [Hold|(-> & Hmem & Hdef)];
          [by left|].
        right. exists schema. split; [by left|]. rewrite Hsub.
        split; [exact Hdef|]. by eapply Forall2_Yields_source.
      * right. exists schema'. split; [by right | exact Hfield].
Qed.

(** X7. The merged tree holds nothing but the fields of the shape: every
    entry is under the name of a field, is never [undefined], and is either
    the group object resolved for a nested shape or a value that one of the
    sources of the list produced for that leaf. Keys of a values source that
    the shape does not name are not copied. *)
Theorem tree_entries_come_from_shape_and_sources σ shape loaders :
  exists tree,
    Returns (loadValue shape loaders) σ tree
    /\ forall k v,
         tree !! k = Some v ->
         k ∈ shape.*1
         /\ v <> JSUndefined
         /\ exists schema,
              (k, schema) ∈ shape
              /\ match instanceof_ZodObject schema with
                 | Some sub =>
                     exists nested,
                       Returns (loadValue sub (subLoaders k loaders)) σ nested
                       /\ v = JSObject (PlainObject nested)
                 | None =>
                     exists source, source ∈ loaders /\ Yields σ schema k source v
                 end.
Proof.
  destruct (loadValue_total σ shape loaders) as [tree Htree].
  exists tree. split; [exact Htree|]. intros k v Hv.
  destruct (loadFields_entries σ shape loaders ∅ tree k v Htree Hv)
    as [Hin|(schema & Hin & Hfield)]; [by rewrite lookup_empty in Hin|].
  split; [apply list_elem_of_fmap; by exists (k, schema)|].
  destruct (instanceof_ZodObject schema) as [sub|] eqn:Hsub.
  - destruct Hfield as (nested & Hnested & ->).
    split; [discriminate|]. exists schema. split; [exact Hin|].
    rewrite Hsub. by exists nested.
  - destruct Hfield as (Hdef & Hsource).
    split; [exact Hdef|]. exists schema. split; [exact Hin|]. by rewrite Hsub.
Qed.

(** A values source with a key the shape does not name. *)
Example unknown_key_is_dropped :
  exists tree,
    Returns (loadValue [("port", port_schema)]
               [ValuesLoader
                  (PlainObject {[ "port" := JSNumber (JSNum.of_Z 8000);
                                  "extra" := JSString "x" ]})]) port_store tree
    /\ tree = {[ "port" := JSNumber (JSNum.of_Z 8000) ]}.
Proof. eexists. split; vm_compute; reflexivity. Qed.



(** ** Layering source lists *)

Lemma last_defined_app before after :
  last_defined (before ++ after) =
  match last_defined after with
  | Some v => Some v
  | None => last_defined before
  end.
Proof.
  induction before as [|b before IH]; cbn [app].
  - by destruct (last_defined after).
  - rewrite !last_defined_cons, IH. by destruct (last_defined after).
Qed.

Lemma Forall2_Yields_inj σ schema key sources : forall ys1 ys2,
  Forall2 (Yields σ schema key) sources ys1 ->
  Forall2 (Yields σ schema key) sources ys2 -> ys1 = ys2.
Proof.
  induction sources as [|source sources IH]; intros ys1 ys2 H1 H2;
    inversion H1; inversion H2; subst; [reflexivity|].
  f_equal; [by eapply Yields_inj | by apply IH].
Qed.

(** X9. Source lists layer: on a leaf field, resolving against [base ++
    overrides] gives the value that [overrides] alone gives when it gives
    one, and otherwise the value that [base] alone gives. *)
Theorem source_lists_layer σ shape base overrides key schema :
  NoDup shape.*1 ->
  (key, schema) ∈ shape ->
  instanceof_ZodObject schema = None ->
  exists lower upper both,
    Returns (loadValue shape base) σ lower
    /\ Returns (loadValue shape overrides) σ upper
    /\ Returns (loadValue shape (base ++ overrides)) σ both
    /\ both !! key =
       match upper !! key with
       | Some v => Some v
       | None => lower !! key
       end.
Proof.
  intros Hnd Hin Hleaf.
  destruct (loadValue_leaf σ shape base key schema Hnd Hin Hleaf)
    as (lower & y1 & Hlower & Hy1 & Hlook1).
  destruct (loadValue_leaf σ shape overrides key schema Hnd Hin Hleaf)
    as (upper & y2 & Hupper & Hy2 & Hlook2).
  destruct (loadValue_leaf σ shape (base ++ overrides) key schema Hnd Hin Hleaf)
    as (both & y & Hboth & Hy & Hlook).
  exists lower, upper, both. repeat (split; [done|]).
  assert (Hy12 : Forall2 (Yields σ schema key) (base ++ overrides) (y1 ++ y2))
    by (by apply Forall2_app).
  rewrite (Forall2_Yields_inj _ _ _ _ _ _ Hy Hy12) in Hlook.
  by rewrite Hlook, Hlook1, Hlook2, last_defined_app.
Qed.

(** Defaults, then a file, then the environment, as in the README. *)
Lemma source_lists_layer_witness :
  exists lower upper both,
    Returns (loadValue [("port", port_schema)]
               [ValuesLoader (PlainObject {[ "port" := JSNumber (JSNum.of_Z 3000) ]});
                ValuesLoader (PlainObject {[ "port" := JSNumber (JSNum.of_Z 8000) ]})])
      port_store lower
    /\ Returns (loadValue [("port", port_schema)] [EnvLoader ∅]) port_store upper
    /\ Returns (loadValue [("port", port_schema)]
                  ([ValuesLoader (PlainObject {[ "port" := JSNumber (JSNum.of_Z 3000) ]});
                    ValuesLoader (PlainObject {[ "port" := JSNumber (JSNum.of_Z 8000) ]})]
                   ++ [EnvLoader ∅])) port_store both
    /\ both !! "port" =
       match upper !! "port" with
       | Some v => Some v
       | None => lower !! "port"
       end.
Proof.
  apply (source_lists_layer port_store [("port", port_schema)] _ _ "port" port_schema).
  - apply NoDup_singleton.
  - apply list_elem_of_singleton. reflexivity.
  - reflexivity.
Defined.

(** ** The previous version of the loader *)









(** ** A group under a combinator *)



(** ** [define], then [safeLoad] and [load] *)

Lemma identities_satisfy_all s : identities_satisfy (fun _ => true) s = true.
Proof.
  induction s as [id i sc IHi IHsc | id shape IH | id target k ty IH]
    using ZodType_nested_ind; cbn [identities_satisfy andb].
  - destruct i, sc; cbn in *; by rewrite ?IHi, ?IHsc.
  - apply forallb_forall. intros field Hfield.
    apply list_elem_of_In in Hfield. by apply (proj1 (Forall_forall _ _) IH).
  - exact IH.
Qed.

Lemma define_run raw σ :
  define raw σ =
  (Normal {| shape := raw; schema := ZodObject (next_id σ) raw |},
   {| next_id := Pos.succ (next_id σ); _envMetadata := _envMetadata σ |}).
Proof. reflexivity. Qed.

(** X12. [define(shape)] registers nothing and does not change what the
    shape resolves to; [safeLoad] on the handle it returns gives the
    validator's verdict on the tree resolved from [shape], validated against
    [object(shape)], and [load] returns that verdict's data or raises its
    error. *)
Theorem define_then_load
    (safeParse : ZodType -> JSValue -> SafeParseResult)
    (raw : ZodRawShape) (loaders : list Loader) (σ : Store) :
  exists tree,
    Returns (loadValue raw loaders) σ tree
    /\ let σ' := {| next_id := Pos.succ (next_id σ); _envMetadata := _envMetadata σ |} in
       let verdict :=
         safeParse (ZodObject (next_id σ) raw) (JSObject (PlainObject tree)) in
       (let* this := define raw in safeLoad safeParse this loaders) σ
         = (Normal verdict, σ')
       /\ (let* this := define raw in load safeParse this loaders) σ
          = (match verdict with
             | Success data => Normal data
             | Failure error => Throw error
             end, σ').
Proof.
  destruct (loadValue_total σ raw loaders) as [tree Htree].
  exists tree. split; [exact Htree|]. cbv zeta.
  assert (Htree' : Returns (loadValue raw loaders)
                     {| next_id := Pos.succ (next_id σ);
                        _envMetadata := _envMetadata σ |} tree).
  { apply (loadValue_same (fun _ => true) σ); [done| |exact Htree].
    apply forallb_forall. intros field _. apply identities_satisfy_all. }
  assert (Hsafe : Returns
                    (safeLoad safeParse
                       {| shape := raw; schema := ZodObject (next_id σ) raw |} loaders)
                    {| next_id := Pos.succ (next_id σ);
                       _envMetadata := _envMetadata σ |}
                    (safeParse (ZodObject (next_id σ) raw)
                       (JSObject (PlainObject tree)))).
  { unfold safeLoad. cbn [shape schema].
    eapply Returns_bind; [exact Htree' | apply Returns_ret]. }
  split.
  - unfold bind at 1. rewrite define_run. exact Hsafe.
  - unfold bind at 1. rewrite define_run. unfold load.
    rewrite (bind_run _ _ _ _ Hsafe). by destruct (safeParse _ _).
Qed.

(** ** Values sources are not coerced *)

(** X13. A values source that comes last and holds a defined value under
    the field name gives the field exactly that value, whatever the type of
    the binding and whatever the earlier sources produced: no coercion is
    applied, and [null], [false], [0] and the empty string count as
    defined. *)
Theorem values_source_is_not_coerced σ shape before values key schema v :
  NoDup shape.*1 ->
  (key, schema) ∈ shape ->
  instanceof_ZodObject schema = None ->
  js_get values key = v ->
  v <> JSUndefined ->
  exists tree,
    Returns (loadValue shape (before ++ [ValuesLoader values])) σ tree
    /\ tree !! key = Some v.
Proof.
  intros Hnd Hin Hleaf Hv Hdef.
  destruct (loadValue_leaf σ shape (before ++ [ValuesLoader values]) key schema
              Hnd Hin Hleaf) as (tree & yields & Htree & Hy & Hlook).
  exists tree. split; [exact Htree|]. rewrite Hlook.
  apply Forall2_app_inv_l in Hy as (yb & ys & _ & Hy & ->).
  apply Forall2_cons_inv_l in Hy as (w & ya & Hw & Hya & ->).
  apply Forall2_nil_inv_l in Hya as ->. cbn [Yields] in Hw. subst w.
  rewrite Hv. apply last_defined_last; [by apply defined_true | constructor].
Qed.

(** [port: null] in a file after the environment set [PORT]: the number
    binding gets [null]. *)
Lemma values_source_is_not_coerced_witness :
  exists tree,
    Returns (loadValue [("port", port_schema)]
               ([EnvLoader {[ "PORT" := "9000" ]}]
                ++ [ValuesLoader (PlainObject {[ "port" := JSNull ]})])) port_store tree
    /\ tree !! "port" = Some JSNull.
Proof.
  apply (values_source_is_not_coerced port_store [("port", port_schema)]
           [EnvLoader {[ "PORT" := "9000" ]}] (PlainObject {[ "port" := JSNull ]})
           "port" port_schema JSNull).
  - apply NoDup_singleton.
  - apply list_elem_of_singleton. reflexivity.
  - reflexivity.
  - reflexivity.
  - discriminate.
Defined.

(** ** Every nesting level *)

(** X14. Along any path of nested fields the merged tree holds, at the end
    of the path, the nested shape resolved against the sources narrowed once
    per level of the path; an environment source is the same source at every
    level. *)
Theorem every_level_narrows_sources σ shape path shape' loaders :
  descends shape path shape' ->
  exists tree nested,
    Returns (loadValue shape loaders) σ tree
    /\ Returns (loadValue shape' (map (narrowed_along path) loaders)) σ nested
    /\ tree_at tree path = Some nested
    /\ forall e, narrowed_along path (EnvLoader e) = EnvLoader e.
Proof.
  intros Hpath.
  destruct (nested_levels σ shape path shape' Hpath loaders)
    as (tree & nested & Htree & Hnested & Hat).
  exists tree, nested. repeat (split; [done|]).
  intros e. apply narrowed_along_environment.
Qed.

(** Two levels down, [database.pool]: the values source is narrowed twice,
    the environment is read as it is. *)
Lemma every_level_narrows_sources_witness :
  exists tree nested,
    Returns (loadValue database_shape
               [ValuesLoader
                  (PlainObject
                     {[ "database" :=
                          JSObject
                            (PlainObject
                               {[ "pool" :=
                                    JSObject
                                      (PlainObject
                                         {[ "max" := JSNumber (JSNum.of_Z 10) ]}) ]}) ]});
                EnvLoader {[ "DB_POOL_MAX" := "20" ]}]) database_store tree
    /\ tree_at tree ["database"; "pool"] = Some nested
    /\ nested = {[ "max" := JSNumber (JSNum.of_Z 20) ]}.
Proof.
  destruct (every_level_narrows_sources database_store database_shape
              ["database"; "pool"] pool_shape
              [ValuesLoader
                 (PlainObject
                    {[ "database" :=
                         JSObject
                           (PlainObject
                              {[ "pool" :=
                                   JSObject
                                     (PlainObject
                                        {[ "max" := JSNumber (JSNum.of_Z 10) ]}) ]}) ]});
               EnvLoader {[ "DB_POOL_MAX" := "20" ]}])
    as (tree & nested & Htree & Hnested & Hat & _).
  - eapply descends_into;
      [apply NoDup_singleton | apply list_elem_of_singleton; reflexivity
      | reflexivity |].
    eapply descends_into;
      [apply NoDup_singleton | apply list_elem_of_singleton; reflexivity
      | reflexivity |].
    apply descends_here.
  - exists tree, nested. split; [exact Htree|]. split; [exact Hat|].
    assert (Hn : Returns
                   (loadValue pool_shape
                      [ValuesLoader (PlainObject {[ "max" := JSNumber (JSNum.of_Z 10) ]});
                       EnvLoader {[ "DB_POOL_MAX" := "20" ]}]) database_store
                   {[ "max" := JSNumber (JSNum.of_Z 20) ]})
      by (vm_compute; reflexivity).
    exact (Returns_inj _ _ _ _ Hnested Hn).
Defined.
